(** * OpenRASP: command hook, dependency inventory and decision engine

    A shallow embedding of

    - [agent/java/.../hook/ProcessBuilderHook.java] (module [ProcessBuilderHook]):
      the three [checkCommand] overloads of the Java agent;
    - the cloud's dependency model, a Go file of package [models]
      (module [Dependency]): [AddDependency], [getDependencyQuery] and
      [AggrDependencyByQuery];
    - the portable decision engine that the specification describes and whose
      implementation is not part of the sources at hand (modules
      [StackCapturer], [CacheKey], [DecisionCache], [DecisionEngine]).

    Definitions come first; the second part holds the properties of the
    code paths above, the third further properties of the rest of the two
    source files: which class is hooked and how, the three entry points of
    the hook, the documents, queries and pages of the dependency model. *)

From Stdlib Require Import ZArith Lia Bool Ascii String List.
From stdpp Require Import base option list strings gmap.

#[local] Set Warnings "-register-all".

Local Open Scope Z_scope.

(* ===================================================================== *)
(** * Part I: definitions                                                 *)
(* ===================================================================== *)

(** ** Strings shared by the Java and the Go code *)

Module Str.

(** [StringUtils.join(Iterable, String)] of commons-lang3 and Go's
    [strings.Join]: the elements in order, the separator between each two. *)
Fixpoint join (sep : string) (l : list string) : string :=
  match l with
  | [] => ""
  | [x] => x
  | x :: r => x +:+ sep +:+ join sep r
  end.

(** Go's [strings.Split(s, sep)] for a separator of one character: the
    pieces of [s] between the occurrences of [c]; a string without [c] (the
    empty one too) is one piece. *)
Fixpoint split (c : ascii) (s : string) : list string :=
  match s with
  | EmptyString => [EmptyString]
  | String a r =>
      if Ascii.eqb a c then EmptyString :: split c r
      else match split c r with
           | h :: t => String a h :: t
           | [] => [String a EmptyString]
           end
  end.

(** Whether [c] occurs in [s]. *)
Fixpoint occurs (c : ascii) (s : string) : bool :=
  match s with
  | EmptyString => false
  | String a r => Ascii.eqb a c || occurs c r
  end.

End Str.

(** ** The Java agent's command hook *)

Module ProcessBuilderHook.

(** *** Values of the Java side *)

(** A [Throwable], as far as the hook looks at it: [getMessage()], which
    may be [null]. *)
Record Throwable : Type := mkThrowable { getMessage : option string }.

(** How a Java call completes: normally with a value, or abruptly. *)
Inductive Completion (A : Type) : Type :=
| Returns (a : A)
| Throws (t : Throwable).
Arguments Returns {A} a.
Arguments Throws {A} t.

(** [CheckParameter.Type], of which this hook uses [COMMAND]. *)
Inductive CheckParameterType : Type := COMMAND | OTHER (name : string).

(** The values the hook stores in the Rhino object: a string and an array
    of strings. *)
Inductive JSValue : Type :=
| JSString (s : string)
| JSArray (elems : list string).

(** The Rhino object [params]: its properties. *)
Abbreviation Scriptable := (gmap string JSValue).

(** What [HookHandler.LOGGER.warn(CloudUtils.getExceptionObject(message,
    errorCode), t)] writes. *)
Record LogEntry : Type := mkLogEntry {
  log_message : option string;
  log_errorCode : Z;
  log_throwable : Throwable
}.

(** The collaborators of the hook that are classes of the agent outside
    this file. Each call may complete abruptly, as any Java call may. *)
Record Env : Type := mkEnv {
  (** [JSContextFactory.enterAndInitContext()] *)
  enterAndInitContext : Completion unit;
  (** [StackTrace.getStackTraceArray(startIndex, depth)] *)
  getStackTraceArray : Z -> Z -> Completion (list string);
  (** [Config.REFLECTION_STACK_START_INDEX] *)
  REFLECTION_STACK_START_INDEX : Z;
  (** [Config.getConfig().getPluginMaxStack()] *)
  getPluginMaxStack : Z;
  (** [ErrorType.HOOK_ERROR.getCode()] *)
  HOOK_ERROR_code : Z;
  (** [HookHandler.doCheckWithoutRequest(type, params)] *)
  doCheckWithoutRequest : CheckParameterType -> Scriptable -> Completion unit
}.

(** *** The state a call of [checkCommand] works on *)

(** The local variable [params] ([None] is [null]), the agent's log, and
    the calls of [doCheckWithoutRequest] made so far. *)
Record State : Type := mkState {
  params : option Scriptable;
  log : list LogEntry;
  checks : list (CheckParameterType * Scriptable)
}.

Definition initial : State := {| params := None; log := []; checks := [] |}.

(** Statements: state passing with abrupt completion. The state is kept
    when a statement throws: what was assigned before stays assigned. *)
Definition M (A : Type) : Type := State -> Completion A * State.

Definition ret {A} (a : A) : M A := fun s => (Returns a, s).

Definition bind {A B} (m : M A) (f : A -> M B) : M B :=
  fun s => match m s with
           | (Returns a, s') => f a s'
           | (Throws t, s') => (Throws t, s')
           end.

Declare Scope hook_scope.
Delimit Scope hook_scope with hook.
Notation "x <- m ;; k" := (bind m (fun x => k))
  (at level 100, m at next level, right associativity) : hook_scope.
Notation "m ;; k" := (bind m (fun _ => k))
  (at level 100, right associativity) : hook_scope.
Local Open Scope hook_scope.

(** A call of a collaborator. *)
Definition call {A} (c : Completion A) : M A := fun s => (c, s).

(** [try { body } catch (Throwable t) { handler }] *)
Definition try_catch (body : M unit) (handler : Throwable -> M unit) : M unit :=
  fun s => match body s with
           | (Returns a, s') => (Returns a, s')
           | (Throws t, s') => handler t s'
           end.

(** [Scriptable params = null] *)
Definition declare_params : M unit :=
  fun s => (Returns tt, {| params := None; log := log s; checks := checks s |}).

(** [params = cx.newObject(cx.getScope())]: a fresh object without
    properties. *)
Definition assign_newObject : M unit :=
  fun s => (Returns tt, {| params := Some ∅; log := log s; checks := checks s |}).

(** [params.put(name, params, value)]; the hook calls it after [params]
    was assigned. On [null] it is a [NullPointerException]. *)
Definition put (name : string) (value : JSValue) : M unit :=
  fun s => match params s with
           | Some o => (Returns tt, {| params := Some (<[name := value]> o);
                                      log := log s; checks := checks s |})
           | None => (Throws (mkThrowable None), s)
           end.

(** [HookHandler.LOGGER.warn(...)] *)
Definition warn (e : LogEntry) : M unit :=
  fun s => (Returns tt, {| params := params s; log := log s ++ [e]; checks := checks s |}).

(** [HookHandler.doCheckWithoutRequest(type, o)], recorded in [checks]. *)
Definition doCheck (env : Env) (type : CheckParameterType) (o : Scriptable) : M unit :=
  fun s => (doCheckWithoutRequest env type o,
            {| params := params s; log := log s; checks := checks s ++ [(type, o)] |}).

(** *** [checkCommand(List<String> command)] *)

(** The body of the [try] block. *)
Definition build_params (env : Env) (command : list string) : M unit :=
  call (enterAndInitContext env) ;;
  assign_newObject ;;
  put "command" (JSString (Str.join " " command)) ;;
  stackInfo <- call (getStackTraceArray env (REFLECTION_STACK_START_INDEX env)
                                            (getPluginMaxStack env)) ;;
  put "stack" (JSArray stackInfo).

(** The [catch] block. *)
Definition log_hook_error (env : Env) (t : Throwable) : M unit :=
  let message := getMessage t in
  let errorCode := HOOK_ERROR_code env in
  warn {| log_message := message; log_errorCode := errorCode; log_throwable := t |}.

(** The entry the [catch] block writes for [t]. *)
Definition hook_error (env : Env) (t : Throwable) : LogEntry :=
  {| log_message := getMessage t; log_errorCode := HOOK_ERROR_code env; log_throwable := t |}.

(** A call that ends in a diagnosed error: it throws, or it logs. *)
Definition error_outcome (r : Completion unit * State) : Prop :=
  (exists t, fst r = Throws t) \/ log (snd r) <> [].

(** [command] is [None] for [null]. *)
Definition checkCommand (env : Env) (command : option (list string)) : M unit :=
  match command with
  | Some ((_ :: _) as command) =>
      declare_params ;;
      try_catch (build_params env command) (log_hook_error env) ;;
      (fun s => match params s with
                | Some o => doCheck env COMMAND o s
                | None => (Returns tt, s)
                end)
  | _ => ret tt
  end.

(** *** [checkCommand(String[] commnad)] *)

Definition checkCommand_array (env : Env) (commnad : list string) : M unit :=
  let commands := [] ++ commnad in
  checkCommand env (Some commands).

(** *** [checkCommand(byte[] command, byte[] args)] *)

Section Bytes.

(** [new String(bytes)]: decoding with the platform's charset. *)
Variable newString : list Byte.byte -> string.

Definition is_zero (b : Byte.byte) : bool := Byte.eqb b Byte.x00.

(** [Arrays.copyOfRange(a, from, to)] for [from <= to <= a.length]. *)
Definition copyOfRange (a : list Byte.byte) (from to : nat) : list Byte.byte :=
  take (to - from) (drop from a).

(** The [for] loop over [args]: [n] iterations are left, [i] is the
    index, [position] the start of the current piece. *)
Fixpoint split_args (args : list Byte.byte) (n i position : nat)
         (commands : list string) : list string :=
  match n with
  | O => commands
  | S n' =>
      match args !! i with
      | Some b =>
          if is_zero b
          then split_args args n' (S i) (S i)
                 (commands ++ [newString (copyOfRange args position i)])
          else split_args args n' (S i) position commands
      | None => commands
      end
  end.

(** The list handed to [checkCommand(List<String>)]. An array is [None]
    for [null]. *)
Definition commands_of_bytes (command args : option (list Byte.byte)) : list string :=
  let commands := [] in
  let commands :=
    match command with
    | Some ((_ :: _) as command) =>
        commands ++ [newString (take (length command - 1) command)]
    | _ => commands
    end in
  match args with
  | Some ((_ :: _) as args) => split_args args (length args) 0 0 commands
  | _ => commands
  end.

Definition checkCommand_bytes (env : Env) (command args : option (list Byte.byte)) : M unit :=
  checkCommand env (Some (commands_of_bytes command args)).

(** What the two arrays contribute, said without indices: the command
    without its final byte, and the pieces of [args] that a zero byte
    ends. [cur] holds the bytes read since the last zero byte; what is left
    in it at the end of the array is dropped. *)
Definition command_piece (command : option (list Byte.byte)) : list (list Byte.byte) :=
  match command with
  | Some ((_ :: _) as command) => [removelast command]
  | _ => []
  end.

Fixpoint zero_terminated (cur bytes : list Byte.byte) : list (list Byte.byte) :=
  match bytes with
  | [] => []
  | b :: r =>
      if is_zero b then cur :: zero_terminated [] r
      else zero_terminated (cur ++ [b]) r
  end.

(** The bytes after the last zero byte. *)
Fixpoint unterminated (cur bytes : list Byte.byte) : list Byte.byte :=
  match bytes with
  | [] => cur
  | b :: r => if is_zero b then unterminated [] r else unterminated (cur ++ [b]) r
  end.

End Bytes.

(** Running a call of the hook from the initial state. *)
Definition run {A} (m : M A) : Completion A * State := m initial.

(** *** Sample environments *)

(** An environment in which every collaborator returns, with a stack of
    two frames. *)
Definition quiet_env : Env :=
  {| enterAndInitContext := Returns tt;
     getStackTraceArray := fun _ _ => Returns ["java.lang.ProcessImpl.start"; "java.lang.ProcessBuilder.start"];
     REFLECTION_STACK_START_INDEX := 0;
     getPluginMaxStack := 20;
     HOOK_ERROR_code := 20002;
     doCheckWithoutRequest := fun _ _ => Returns tt |}.

(** An environment whose stack capture fails and whose call of the engine
    throws. The hook is a [void] method run before the constructor of the
    process class: throwing is the one way in which a check can stop the
    process from being created. *)
Definition blocking_env : Env :=
  {| enterAndInitContext := Returns tt;
     getStackTraceArray := fun _ _ => Throws (mkThrowable (Some "stack unavailable"));
     REFLECTION_STACK_START_INDEX := 0;
     getPluginMaxStack := 20;
     HOOK_ERROR_code := 20002;
     doCheckWithoutRequest := fun _ _ => Throws (mkThrowable (Some "Request blocked by OpenRASP")) |}.

(** An environment in which no script context can be entered. *)
Definition contextless_env : Env :=
  {| enterAndInitContext := Throws (mkThrowable (Some "no context"));
     getStackTraceArray := fun _ _ => Returns [];
     REFLECTION_STACK_START_INDEX := 0;
     getPluginMaxStack := 20;
     HOOK_ERROR_code := 20002;
     doCheckWithoutRequest := fun _ _ => Throws (mkThrowable (Some "Request blocked by OpenRASP")) |}.

(** *** [getType], [isClassMatched], [hookMethod] *)

(** [getType()] *)
Definition getType : string := "command".

(** What the hook reads of the running JVM: the system property
    [java.version] and the three tests of [OSUtil]. *)
Record Platform : Type := mkPlatform {
  java_version : string;
  isLinux : bool;
  isMacOS : bool;
  isWindows : bool
}.

(** [getJdkVersion()]: whether the version string starts like that of a
    JDK 9, 10 or 11. *)
Definition getJdkVersion (p : Platform) : bool :=
  let javaVersion := java_version p in
  String.prefix "1.9" javaVersion || String.prefix "10." javaVersion
  || String.prefix "11." javaVersion.

(** [isClassMatched(className)] *)
Definition isClassMatched (p : Platform) (className : string) : bool :=
  if getJdkVersion p then String.eqb "java/lang/ProcessImpl" className
  else if isLinux p || isMacOS p then String.eqb "java/lang/UNIXProcess" className
  else if isWindows p then String.eqb "java/lang/ProcessImpl" className
  else false.

(** [String.contains] *)
Definition contains (s sub : string) : bool :=
  match String.index 0 sub s with Some _ => true | None => false end.

(** The parameter types [getInvokeStaticSrc] is given. *)
Inductive ParamType : Type := ByteArray | StringArray.

(** One [insertBefore(ctClass, methodName, desc, src)] where [src] is
    [getInvokeStaticSrc(ProcessBuilderHook.class, invokeMethod, paramString,
    paramTypes)]; [desc] is [None] for [null]. *)
Record Insertion : Type := mkInsertion {
  methodName : string;
  desc : option string;
  invokeMethod : string;
  paramString : string;
  paramTypes : list ParamType
}.

(** [hookMethod(ctClass)], by the name of the class: the insertions it
    asks for. *)
Definition hookMethod (p : Platform) (ctClassName : string) : list Insertion :=
  if contains ctClassName "ProcessImpl" then
    if getJdkVersion p then
      [ {| methodName := "<init>"; desc := None; invokeMethod := "checkCommand";
           paramString := "$1,$2"; paramTypes := [ByteArray; ByteArray] |} ]
    else
      [ {| methodName := "<init>"; desc := None; invokeMethod := "checkCommand";
           paramString := "$1"; paramTypes := [StringArray] |} ]
  else if contains ctClassName "UNIXProcess" then
    [ {| methodName := "<init>"; desc := None; invokeMethod := "checkCommand";
         paramString := "$1,$2"; paramTypes := [ByteArray; ByteArray] |} ]
  else [].

(** The name of a class as Javassist gives it ([CtClass.getName()]): with
    dots where the internal name has slashes. *)
Fixpoint dotted (className : string) : string :=
  match className with
  | EmptyString => EmptyString
  | String c r => String (if Ascii.eqb c "/" then "."%char else c) (dotted r)
  end.

(** The arrays the JDK hands to the constructor for a command and its
    arguments: each string encoded and ended by a zero byte. *)
Definition terminated (encode : string -> list Byte.byte) (l : list string) : list Byte.byte :=
  concat ((fun a => encode a ++ [Byte.x00]) <$> l).

(** A JDK 8 and a JDK 11 on Linux. *)
Definition jdk8_linux : Platform :=
  {| java_version := "1.8.0_181"; isLinux := true; isMacOS := false; isWindows := false |}.

Definition jdk11_linux : Platform :=
  {| java_version := "11.0.2"; isLinux := true; isMacOS := false; isWindows := false |}.

End ProcessBuilderHook.

(** ** The cloud's dependency inventory (Go, package [models]) *)

Module Dependency.

(** [int] and [int64] of Go on a 64-bit platform: two's complement. *)
Definition wrap64 (z : Z) : Z := (z + 2 ^ 63) mod 2 ^ 64 - 2 ^ 63.
Definition max_int64 : Z := 2 ^ 63 - 1.

(** How a Go call ends: it returns, or a runtime panic unwinds it. *)
Inductive GoResult (A : Type) : Type :=
| Done (a : A)
| Panic (msg : string).
Arguments Done {A} a.
Arguments Panic {A} msg.

Definition error : Type := string.

Record Dependency : Type := mkDependency {
  UpsertId : string;
  Path : list string;
  CreateTime : Z;
  RaspId : string;
  HostName : string;
  RegisterIp : string;
  AppId : string;
  Vendor : string;
  Product : string;
  Version : string;
  Tag : string;
  SearchString : string;
  Source : string
}.

(** The fields of [Rasp] (declared in another file of the package) that
    this file reads. *)
Module Rasp.
Record t : Type := mk { Id : string; AppId : string; HostName : string; RegisterIp : string }.
End Rasp.

(** The anonymous struct under [SearchDependencyParam.Data], with the JSON
    name of each field. *)
Module SearchData.
Record t : Type := mk {
  Id : string;            (* _id *)
  AppId : string;         (* app_id *)
  RaspId : string;        (* rasp_id *)
  HostnameOrIp : string;  (* hostname *)
  Tag : string;           (* tag *)
  KeyWord : string;       (* key_word *)
  Source : string         (* source *)
}.
End SearchData.

Record SearchDependencyParam : Type := mkParam {
  Page : Z;
  Perpage : Z;
  Data : option SearchData.t
}.

Definition DependencyIndexName : string := "openrasp-dependency-data".
Definition AliasDependencyIndexName : string := "real-openrasp-dependency-data".
Definition dependencyType : string := "dependency".

(** *** The search backend, as this file talks to it *)

Inductive Query : Type :=
| WildcardQuery (field pattern : string)
| TermQuery (field value : string)
| ShouldQuery (clauses : list Query).

(** [elastic.BoolQuery] with the clauses this file adds. *)
Record BoolQuery : Type := mkBoolQuery { must : list Query; filter : list Query }.

Inductive TermsOrder : Type := OrderByKeyAsc | OrderByTermAsc.

(** [elastic.NewTermsAggregation().Field(f).Size(n)] with its order. *)
Record TermsAggregation : Type := mkTermsAggregation {
  agg_field : string;
  agg_size : Z;
  agg_order : TermsOrder
}.

(** The search request of [AggrDependencyByQuery]. *)
Record SearchRequest : Type := mkSearchRequest {
  req_index : string;
  req_query : BoolQuery;
  req_size : Z;
  req_aggregation : string * TermsAggregation
}.

(** A bucket key is an [interface{}]: a string for a keyword field, a
    number otherwise. *)
Inductive KeyValue : Type := KeyString (s : string) | KeyNumber (z : Z).

(** [elastic.AggregationBucketKeyItem]; [Key] is [None] for [nil]. *)
Record AggregationBucketKeyItem : Type := mkBucket {
  Key : option KeyValue;
  DocCount : Z
}.

(** [elastic.AggregationBucketKeyItems]: [Buckets] is [None] for a [nil]
    slice, an element is [None] for a [nil] pointer. *)
Record AggregationBucketKeyItems : Type := mkTerms {
  Buckets : option (list (option AggregationBucketKeyItem))
}.

(** [elastic.SearchResult], the part read here; [Aggregations] is [None]
    for [nil], and [Terms(name)] is the lookup. *)
Record SearchResult : Type := mkSearchResult {
  Aggregations : option (gmap string AggregationBucketKeyItems)
}.

(** The values stored in the [map[string]interface{}] of a page entry. *)
Inductive GoValue : Type := GoString (s : string) | GoInt64 (z : Z).

Abbreviation Entry := (gmap string GoValue).

(** What lies outside this file: the log and search packages, the clock
    and the platform. *)
Record Env : Type := mkEnv {
  (** [time.Now().UnixNano()] at the i-th iteration of the loop *)
  UnixNano : nat -> Z;
  (** [logs.AddLogsWithKafka(logType, appId, docs)] *)
  AddLogsWithKafka : string -> string -> list Dependency -> option error;
  (** [es.GetIndex(name, appId)] *)
  GetIndex : string -> string -> string;
  (** [es.BulkInsert(index, docType, docs)] *)
  BulkInsert : string -> string -> list Dependency -> option error;
  (** [es.Version] *)
  es_Version : string;
  (** [es.ElasticClient.Search(...)...Do(ctx)] *)
  Search : SearchRequest -> option SearchResult * option error;
  (** the largest capacity [make] accepts for a slice of maps *)
  maxSliceCap : Z
}.

(** *** [AddDependency] *)

(** [fmt.Sprint] of a [[]string]: the elements between brackets, separated
    by spaces. Of a string it is the string. *)
Definition Sprint_strings (l : list string) : string :=
  "[" +:+ Str.join " " l +:+ "]".

(** One iteration: the new [idContent] and the dependency as the loop
    leaves it. [i] numbers the iteration. *)
Definition add_step (env : Env) (rasp : Rasp.t) (i : nat) (idContent : string)
           (dependency : Dependency) : string * Dependency :=
  let idContent := idContent +:+ Sprint_strings (Path dependency) in
  let idContent := idContent +:+ Tag dependency in
  let idContent := idContent +:+ RaspId dependency in
  (idContent,
   {| UpsertId := idContent;
      Path := Path dependency;
      CreateTime := Z.quot (UnixNano env i) 1000000;
      RaspId := Rasp.Id rasp;
      HostName := Rasp.HostName rasp;
      RegisterIp := Rasp.RegisterIp rasp;
      AppId := Rasp.AppId rasp;
      Vendor := Vendor dependency;
      Product := Product dependency;
      Version := Version dependency;
      Tag := Vendor dependency +:+ ":" +:+ Product dependency +:+ ":" +:+ Version dependency;
      SearchString := Product dependency +:+ Version dependency;
      Source := Source dependency |}).

(** What one dependency adds to [idContent]. *)
Definition own_content (dependency : Dependency) : string :=
  Sprint_strings (Path dependency) +:+ Tag dependency +:+ RaspId dependency.

(** The [for ... range dependencies] loop; [idContent] lives outside it. *)
Fixpoint add_loop (env : Env) (rasp : Rasp.t) (i : nat) (idContent : string)
         (dependencies : list Dependency) (docs : list Dependency) : list Dependency :=
  match dependencies with
  | [] => docs
  | dependency :: rest =>
      let '(idContent, dependency) := add_step env rasp i idContent dependency in
      add_loop env rasp (S i) idContent rest (docs ++ [dependency])
  end.

(** The documents built, and the error returned. *)
Definition AddDependency (env : Env) (rasp : Rasp.t) (dependencies : list Dependency)
  : list Dependency * option error :=
  let docs := [] in
  let idContent := "" in
  let docs := add_loop env rasp 0 idContent dependencies docs in
  match AddLogsWithKafka env "dependency-data" (Rasp.AppId rasp) docs with
  | Some err => (docs, Some err)
  | None =>
      (docs, BulkInsert env (GetIndex env AliasDependencyIndexName (Rasp.AppId rasp))
                        dependencyType docs)
  end.

(** The contributions of a run of dependencies, one after the other. *)
Definition contents (dependencies : list Dependency) : string :=
  foldr (fun d acc => own_content d +:+ acc) "" dependencies.

(** The documents the loop appends, as a list. *)
Fixpoint processed (env : Env) (rasp : Rasp.t) (i : nat) (idContent : string)
         (dependencies : list Dependency) : list Dependency :=
  match dependencies with
  | [] => []
  | d :: rest =>
      snd (add_step env rasp i idContent d)
      :: processed env rasp (S i) (fst (add_step env rasp i idContent d)) rest
  end.

(** *** [getDependencyQuery] *)

(** [json.Marshal(param.Data)] read back into a [map[string]string]: the
    fields that are not empty ([omitempty]) under their JSON names. A [nil]
    [Data] marshals to [null] and leaves the map empty. Neither step fails
    on strings. The pairs are listed in the order of the struct; Go ranges
    over the map in no fixed order. *)
Definition searchContent (data : option SearchData.t) : list (string * string) :=
  match data with
  | None => []
  | Some d =>
      List.filter (fun kv => negb (String.eqb (snd kv) ""))
        [ ("_id", SearchData.Id d);
          ("app_id", SearchData.AppId d);
          ("rasp_id", SearchData.RaspId d);
          ("hostname", SearchData.HostnameOrIp d);
          ("tag", SearchData.Tag d);
          ("key_word", SearchData.KeyWord d);
          ("source", SearchData.Source d) ]
  end.

(** The body of the loop over [searchContent]: the [Must] clauses added to
    [query] and the term queries collected in [queries]. *)
Fixpoint query_loop (content : list (string * string)) (query : BoolQuery)
         (queries : list Query) : BoolQuery * list Query :=
  match content with
  | [] => (query, queries)
  | (k, v) :: rest =>
      if String.eqb k "key_word" then
        let shouldQueries :=
          [ WildcardQuery "tag" ("*" +:+ v +:+ "*");
            WildcardQuery "search_string" ("*" +:+ v +:+ "*") ] in
        query_loop rest {| must := must query ++ [ShouldQuery shouldQueries];
                           filter := filter query |} queries
      else if String.eqb k "hostname" then
        let shouldQueries :=
          [ WildcardQuery "hostname" ("*" +:+ v +:+ "*");
            WildcardQuery "register_ip" ("*" +:+ v +:+ "*") ] in
        query_loop rest {| must := must query ++ [ShouldQuery shouldQueries];
                           filter := filter query |} queries
      else query_loop rest query (queries ++ [TermQuery k v])
  end.

Definition getDependencyQuery (param : SearchDependencyParam) : BoolQuery * option error :=
  let content := searchContent (Data param) in
  let '(query, queries) := query_loop content {| must := []; filter := [] |} [] in
  ({| must := must query; filter := filter query ++ queries |}, None).

(** *** [AggrDependencyByQuery] *)

Definition aggrName : string := "dependency_aggr".

(** [value] as the loop fills it for a tag of three components. *)
Definition make_value (tag : string) (dependencyData0 dependencyData1 dependencyData2 : string)
           (docCount : Z) : Entry :=
  <["rasp_count" := GoInt64 docCount]>
    (<["tag" := GoString tag]>
       (<["version" := GoString dependencyData2]>
          (<["product" := GoString dependencyData1]>
             (<["vendor" := GoString dependencyData0]> ∅)))).

(** The body of the paging loop after the bounds test: [result] with the
    entry of [item] appended when its key is a string of three components. *)
Definition append_bucket (item : option AggregationBucketKeyItem) (result : list Entry)
  : list Entry :=
  match item with
  | Some item =>
      match Key item with
      | Some (KeyString tag) =>
          match Str.split ":" tag with
          | [d0; d1; d2] => result ++ [make_value tag d0 d1 d2 (DocCount item)]
          | _ => result
          end
      | _ => result
      end
  | None => result
  end.

(** [for i := 0; i < param.Perpage; i++]: [n] iterations are left. An
    index below zero makes [terms.Buckets[index]] panic. *)
Fixpoint page_loop (buckets : list (option AggregationBucketKeyItem)) (total : Z)
         (Page Perpage : Z) (n : nat) (i : Z) (result : list Entry)
  : GoResult (list Entry) :=
  match n with
  | O => Done result
  | S n' =>
      let index := wrap64 (i + wrap64 (wrap64 (Page - 1) * Perpage)) in
      if index >=? total then Done result
      else if index <? 0 then Panic "index out of range"
      else match buckets !! Z.to_nat index with
           | None => Panic "index out of range"
           | Some item =>
               page_loop buckets total Page Perpage n' (wrap64 (i + 1))
                         (append_bucket item result)
           end
  end.

(** [make([]map[string]interface{}, 0, cap)] *)
Definition make_result (env : Env) (cap : Z) : GoResult (list Entry) :=
  if (cap <? 0) || (maxSliceCap env <? cap) then Panic "makeslice: cap out of range"
  else Done [].

(** The order of the aggregation: [es.Version[0:1]] against [5].
    Slicing an empty string panics. *)
Definition aggr_order (env : Env) : GoResult TermsOrder :=
  match es_Version env with
  | EmptyString => Panic "slice bounds out of range"
  | String c _ =>
      Done (if String.ltb "5" (String c EmptyString) then OrderByKeyAsc else OrderByTermAsc)
  end.

(** The request: the query, no hits ([Size(0)]), and the terms
    aggregation over [tag] with [Size(10000)]. *)
Definition aggr_request (index : string) (query : BoolQuery) (order : TermsOrder)
  : SearchRequest :=
  let aggr := {| agg_field := "tag"; agg_size := 10000; agg_order := order |} in
  {| req_index := index; req_query := query; req_size := 0;
     req_aggregation := (aggrName, aggr) |}.

(** The entry a bucket is reported as, if it is: the bucket is there, its
    key is a string, and the string has three components. *)
Definition reported (item : option AggregationBucketKeyItem) : option Entry :=
  match item with
  | Some item =>
      match Key item with
      | Some (KeyString tag) =>
          match Str.split ":" tag with
          | [vendor; product; version] =>
              Some (make_value tag vendor product version (DocCount item))
          | _ => None
          end
      | _ => None
      end
  | None => None
  end.

(** The buckets of page [Page], [Perpage] to a page. *)
Definition page_window {A} (Page Perpage : Z) (buckets : list A) : list A :=
  take (Z.to_nat Perpage) (drop (Z.to_nat ((Page - 1) * Perpage)) buckets).

(** The result is the triple the Go function returns: the total, the page
    ([None] is a [nil] slice) and the error. *)
Definition AggrDependencyByQuery (env : Env) (appId : string) (param : SearchDependencyParam)
  : GoResult (Z * option (list Entry) * option error) :=
  match getDependencyQuery param with
  | (_, Some err) => Done (0, None, Some err)
  | (query, None) =>
      let index := GetIndex env AliasDependencyIndexName appId in
      match aggr_order env with
      | Panic msg => Panic msg
      | Done order =>
          match Search env (aggr_request index query order) with
          | (_, Some err) => Done (0, None, Some err)
          | (queryResult, None) =>
              let total := 0 in
              match make_result env (Perpage param) with
              | Panic msg => Panic msg
              | Done result =>
                  match queryResult with
                  | Some {| Aggregations := Some aggregations |} =>
                      match aggregations !! aggrName with
                      | Some {| Buckets := Some buckets |} =>
                          let total := Z.of_nat (length buckets) in
                          match make_result env (Perpage param) with
                          | Panic msg => Panic msg
                          | Done result =>
                              match page_loop buckets total (Page param) (Perpage param)
                                              (Z.to_nat (Perpage param)) 0 result with
                              | Panic msg => Panic msg
                              | Done result => Done (total, Some result, None)
                              end
                          end
                      | _ => Done (total, Some result, None)
                      end
                  | _ => Done (total, Some result, None)
                  end
              end
          end
      end
  end.

(** *** A sample backend *)

(** A backend that knows five tags, two of them not of three components,
    and one bucket without a key. *)
Definition sample_buckets : list (option AggregationBucketKeyItem) :=
  [ Some {| Key := Some (KeyString "org.apache:commons:3.1");
            DocCount := 2 |};
    Some {| Key := Some (KeyString "no-colon"); DocCount := 1 |};
    Some {| Key := Some (KeyString "a:b:c:d"); DocCount := 3 |};
    Some {| Key := None; DocCount := 7 |};
    Some {| Key := Some (KeyString "x:y:z"); DocCount := 5 |} ].

(** An environment whose backend answers every search with these buckets. *)
Definition sample_env : Env :=
  {| UnixNano := fun _ => 1700000000000000000%Z;
     AddLogsWithKafka := fun _ _ _ => None;
     GetIndex := fun name appId => name +:+ "-" +:+ appId;
     BulkInsert := fun _ _ _ => None;
     es_Version := "6.8.0";
     Search := fun _ =>
       (Some {| Aggregations :=
                  Some {[ aggrName := {| Buckets := Some sample_buckets |} ]} |},
        None);
     maxSliceCap := 1000000%Z |}.

(** The first page, three to a page. *)
Definition sample_param : SearchDependencyParam :=
  {| Page := 1; Perpage := 3; Data := None |}.

(** *** [SearchDependency], [RemoveDependencyByRasp], [RemoveDependencyByApp] *)

(** [elastic.SearchHit]: [hit_Source] is [None] for a [nil] [Source]. *)
Record SearchHit : Type := mkSearchHit {
  hit_Id : string;
  hit_Source : option string
}.

(** [elastic.SearchHits]: [Hits] is [None] for a [nil] slice, an element is
    [None] for a [nil] pointer. *)
Record SearchHits : Type := mkSearchHits {
  TotalHits : Z;
  Hits : option (list (option SearchHit))
}.

(** [elastic.SearchResult] as [SearchDependency] reads it. *)
Record HitsResult : Type := mkHitsResult { result_Hits : option SearchHits }.

(** The search request of [SearchDependency]. *)
Record HitsRequest : Type := mkHitsRequest {
  hits_index : string;
  hits_query : BoolQuery;
  hits_from : Z;
  hits_sort : string * bool;
  hits_size : Z
}.

Section Hits.

(** A decoded document, a [map[string]interface{}]. *)
Variable Doc : Type.

(** The calls of the search package that [SearchDependency] and the two
    removers make. *)
Record Backend : Type := mkBackend {
  (** [es.ElasticClient.Search(index)...Do(ctx)] *)
  SearchHitsDo : HitsRequest -> option HitsResult * option error;
  (** [json.Unmarshal(source, &m)] into a fresh map *)
  Unmarshal : string -> error + Doc;
  (** [es.HandleSearchResult(m, id)] *)
  HandleSearchResult : Doc -> string -> Doc;
  (** [es.DeleteByQuery(index, docType, query)] *)
  DeleteByQuery : string -> string -> BoolQuery -> option error;
  (** [es.DeleteIndex(index)] *)
  DeleteIndex : string -> option error
}.

(** The loop over the hits: the documents, or the error of the first hit
    that does not decode. A [nil] hit or source is dereferenced. *)
Fixpoint hits_loop (b : Backend) (hits : list (option SearchHit)) : GoResult (error + list Doc) :=
  match hits with
  | [] => Done (inr [])
  | None :: _ => Panic "nil pointer dereference"
  | Some item :: rest =>
      match hit_Source item with
      | None => Panic "nil pointer dereference"
      | Some source =>
          match Unmarshal b source with
          | inl err => Done (inl err)
          | inr m =>
              match hits_loop b rest with
              | Panic msg => Panic msg
              | Done (inl err) => Done (inl err)
              | Done (inr docs) => Done (inr (HandleSearchResult b m (hit_Id item) :: docs))
              end
          end
      end
  end.

(** The request: the page as [From] and [Size], sorted by [tag]
    ascending. *)
Definition hits_request (index : string) (query : BoolQuery) (param : SearchDependencyParam)
  : HitsRequest :=
  {| hits_index := index; hits_query := query;
     hits_from := wrap64 (wrap64 (Page param - 1) * Perpage param);
     hits_sort := ("tag", true);
     hits_size := Perpage param |}.

Definition SearchDependency (env : Env) (b : Backend) (appId : string)
           (param : SearchDependencyParam)
  : GoResult (Z * option (list Doc) * option error) :=
  match getDependencyQuery param with
  | (_, Some err) => Done (0, None, Some err)
  | (query, None) =>
      let index := GetIndex env AliasDependencyIndexName appId in
      match SearchHitsDo b (hits_request index query param) with
      | (_, Some err) => Done (0, None, Some err)
      | (queryResult, None) =>
          let total := 0 in
          match make_result env (Perpage param) with
          | Panic msg => Panic msg
          | Done _ =>
              let result : list Doc := [] in
              match queryResult with
              | Some {| result_Hits := Some {| TotalHits := totalHits; Hits := Some hits |} |} =>
                  match hits_loop b hits with
                  | Panic msg => Panic msg
                  | Done (inl err) => Done (0, None, Some err)
                  | Done (inr result) => Done (totalHits, Some result, None)
                  end
              | _ => Done (total, Some result, None)
              end
          end
      end
  end.

Definition RemoveDependencyByRasp (env : Env) (b : Backend) (appId raspId : string)
  : option error :=
  let query := {| must := []; filter := [TermQuery "rasp_id" raspId] |} in
  DeleteByQuery b (GetIndex env AliasDependencyIndexName appId) dependencyType query.

Definition RemoveDependencyByApp (env : Env) (b : Backend) (appId : string) : option error :=
  DeleteIndex b (GetIndex env DependencyIndexName appId).

(** A hit that is there, has a source, and whose source decodes: the
    document it is returned as. *)
Definition decoded (b : Backend) (hit : option SearchHit) (doc : Doc) : Prop :=
  exists item source m,
    hit = Some item /\ hit_Source item = Some source
    /\ Unmarshal b source = inr m
    /\ doc = HandleSearchResult b m (hit_Id item).

End Hits.

(** The fields of the search form with their JSON names, in the order of
    the struct. *)
Definition search_fields (d : SearchData.t) : list (string * string) :=
  [ ("_id", SearchData.Id d);
    ("app_id", SearchData.AppId d);
    ("rasp_id", SearchData.RaspId d);
    ("hostname", SearchData.HostnameOrIp d);
    ("tag", SearchData.Tag d);
    ("key_word", SearchData.KeyWord d);
    ("source", SearchData.Source d) ].

(** A substring search over two fields, as [getDependencyQuery] builds it. *)
Definition either_contains (field1 field2 v : string) : Query :=
  ShouldQuery [ WildcardQuery field1 ("*" +:+ v +:+ "*");
                WildcardQuery field2 ("*" +:+ v +:+ "*") ].

(** A backend with two hits for every search. Documents are strings; a
    source decodes when it starts with a brace; [HandleSearchResult] notes
    the id of the hit behind the document. *)
Definition sample_hits : list (option SearchHit) :=
  [ Some {| hit_Id := "1"; hit_Source := Some "{a}" |};
    Some {| hit_Id := "2"; hit_Source := Some "{b}" |} ].

Definition sample_backend : Backend string :=
  {| SearchHitsDo := fun _ =>
       (Some {| result_Hits := Some {| TotalHits := 2; Hits := Some sample_hits |} |}, None);
     Unmarshal := fun source =>
       if String.prefix "{" source then inr source else inl "invalid character";
     HandleSearchResult := fun m id => m +:+ "#" +:+ id;
     DeleteByQuery := fun _ _ _ => None;
     DeleteIndex := fun _ => None |}.

End Dependency.

(** ** The decision engine of the specification

    The agents hand every check to the decision engine ([HookHandler],
    [StackTrace], the [build_lru_key] implementations, the caches and the
    interpreter pool). Those files are not among the sources at hand; the
    modules below follow the specification's sections 3 and 4. *)

Local Open Scope nat_scope.

Module StackCapturer.

Section Capture.

(** A frame of the call stack and its formatting as a caller-location
    string; the specification fixes neither. *)
Variable Frame : Type.
Variable format : Frame -> string.

(** Modelled from the spec: the Stack Capturer of section 4.2, whose
    implementation ([StackTrace.getStackTraceArray]) is missing. [stack]
    is the call stack above the capture point, innermost frame first, or
    [None] in an environment that cannot introspect its stack. The result
    holds at most [maxDepth] descriptors, starting [startOffset] frames
    above the capture point. *)
Definition capture (stack : option (list Frame)) (startOffset maxDepth : nat)
  : list string :=
  match stack with
  | None => []
  | Some frames => format <$> take maxDepth (drop startOffset frames)
  end.

End Capture.

End StackCapturer.

Module CacheKey.

(** Modelled from the spec: the operation categories of the data model
    (section 3, [CheckParameter.type]); the enumeration of the agents is
    missing. *)
Inductive OperationType : Type := COMMAND | FILE | SQL | DESERIALIZATION.

(** Modelled from the spec: a field value of a [CheckParameter] (section
    3): a string, an array of strings or a nested object. *)
Inductive Value : Type :=
| VString (s : string)
| VArray (elems : list string)
| VObject (members : list (string * Value)).

(** Modelled from the spec: [CheckParameter] of section 3, an operation
    type and an ordered mapping of field names to values. *)
Record CheckParameter : Type := mkCheckParameter {
  type : OperationType;
  fields : list (string * Value)
}.

(** Modelled from the spec: the namespace prefix of section 4.3; the
    names of the types are not given there. *)
Definition type_name (t : OperationType) : string :=
  match t with
  | COMMAND => "command"
  | FILE => "file"
  | SQL => "sql"
  | DESERIALIZATION => "deserialization"
  end.

(** Modelled from the spec: a stable serialization of a value (section 3,
    [CacheEntry.key]). *)
Fixpoint serialize (v : Value) : string :=
  match v with
  | VString s => s
  | VArray elems => "[" +:+ Str.join "," elems +:+ "]"
  | VObject members =>
      "{" +:+ (fix members_to_string (l : list (string * Value)) : string :=
                 match l with
                 | [] => ""
                 | (k, v) :: r => k +:+ "=" +:+ serialize v +:+ ";" +:+ members_to_string r
                 end) members +:+ "}"
  end.

(** Modelled from the spec: the fields section 4.3 excludes from the key,
    the volatile and the auxiliary ones (timestamps, stack traces). *)
Definition significant (name : string) : bool :=
  negb (String.eqb name "stack") && negb (String.eqb name "timestamp").

(** Modelled from the spec: the serialization of the significant fields,
    in their order. *)
Fixpoint serialize_fields (l : list (string * Value)) : string :=
  match l with
  | [] => ""
  | (k, v) :: r =>
      if significant k then k +:+ "=" +:+ serialize v +:+ ";" +:+ serialize_fields r
      else serialize_fields r
  end.

(** Modelled from the spec: the Cache Key Deriver of section 4.3
    ([build_lru_key] is declared in [mongo_object.h], its body is missing):
    the operation type as a namespace prefix, then the significant
    fields. *)
Definition deriveKey (p : CheckParameter) : string :=
  type_name (type p) +:+ ":" +:+ serialize_fields (fields p).

End CacheKey.

Module DecisionCache.

(** Modelled from the spec: [Decision.action] of section 3. *)
Inductive Action : Type := ALLOW | LOG | BLOCK.

(** Modelled from the spec: [Decision] of section 3. *)
Record Decision : Type := mkDecision {
  action : Action;
  messages : list string;
  policyId : option string
}.

(** Modelled from the spec: [CacheEntry] of section 3; [lastAccess] is the
    value of the logical clock at the last [get] or [put] of the key. *)
Record CacheEntry : Type := mkCacheEntry {
  key : string;
  decision : Decision;
  lastAccess : nat
}.

(** Modelled from the spec: the Decision Cache of section 4.4, its
    capacity, its logical clock and its live entries. No implementation of
    it is among the sources. *)
Record Cache : Type := mkCache {
  capacity : nat;
  clock : nat;
  entries : list CacheEntry
}.

(** Modelled from the spec: a new cache of capacity [C], without entries
    (section 4.4). *)
Definition empty (C : nat) : Cache := {| capacity := C; clock := 0; entries := [] |}.

(** Modelled from the spec: whether an entry is the one of key [k]; keys
    are opaque strings (section 3). *)
Definition has_key (k : string) (e : CacheEntry) : bool := String.eqb (key e) k.

(** Modelled from the spec: the live entry of a key, of which there is at
    most one (the invariant of section 3). *)
Definition lookup (k : string) (es : list CacheEntry) : option CacheEntry :=
  List.find (has_key k) es.

(** Modelled from the spec: the update of recency of section 4.4: the
    entry of [k] gets the decision [d] makes of its own and the access
    time [now]. *)
Definition refresh (k : string) (d : Decision -> Decision) (now : nat)
           (es : list CacheEntry) : list CacheEntry :=
  (fun e => if has_key k e
            then {| key := key e; decision := d (decision e); lastAccess := now |}
            else e) <$> es.

(** Modelled from the spec: the least recently used entry of section
    4.4, the one of least [lastAccess] (section 3). *)
Fixpoint least_recent (es : list CacheEntry) : option CacheEntry :=
  match es with
  | [] => None
  | e :: r =>
      match least_recent r with
      | Some m => if lastAccess e <=? lastAccess m then Some e else Some m
      | None => Some e
      end
  end.

(** Modelled from the spec: the eviction of section 4.4: the least
    recently used entry goes. *)
Definition evict (es : list CacheEntry) : list CacheEntry :=
  match least_recent es with
  | Some v => List.filter (fun e => negb (has_key (key v) e)) es
  | None => es
  end.

(** Modelled from the spec: [get] of section 4.4; a hit updates the
    recency of the entry. Every operation advances the logical clock. *)
Definition get (k : string) (c : Cache) : option Decision * Cache :=
  match lookup k (entries c) with
  | Some e =>
      (Some (decision e),
       {| capacity := capacity c; clock := S (clock c);
          entries := refresh k id (clock c) (entries c) |})
  | None =>
      (None, {| capacity := capacity c; clock := S (clock c); entries := entries c |})
  end.

(** Modelled from the spec: [put] of section 4.4. The decision of a live
    key is replaced; for a new key a full cache first evicts exactly one
    entry, the least recently used one. *)
Definition put (k : string) (d : Decision) (c : Cache) : Cache :=
  match lookup k (entries c) with
  | Some _ =>
      {| capacity := capacity c; clock := S (clock c);
         entries := refresh k (fun _ => d) (clock c) (entries c) |}
  | None =>
      let live := if capacity c <=? length (entries c) then evict (entries c)
                  else entries c in
      {| capacity := capacity c; clock := S (clock c);
         entries := live ++ [{| key := k; decision := d; lastAccess := clock c |}] |}
  end.

(** Modelled from the spec: a key is present when it has a live entry. *)
Definition cached (k : string) (c : Cache) : Prop := is_Some (lookup k (entries c)).

(** Modelled from the spec: the two operations of the contract of section
    4.4, as a client issues them. *)
Inductive Op : Type := Put (k : string) (d : Decision) | Get (k : string).

(** The key an operation is about. *)
Definition op_key (o : Op) : string :=
  match o with Put k _ => k | Get k => k end.

(** One operation on the cache. *)
Definition step (c : Cache) (o : Op) : Cache :=
  match o with
  | Put k d => put k d c
  | Get k => snd (get k c)
  end.

(** A sequence of operations, the first one first. *)
Definition run (ops : list Op) (c : Cache) : Cache := fold_left step ops c.

(** The keys inserted by a run, in order. *)
Fixpoint put_keys (ops : list Op) : list string :=
  match ops with
  | [] => []
  | Put k _ :: r => k :: put_keys r
  | Get _ :: r => put_keys r
  end.

(** Whether an operation is a read. *)
Definition is_get (o : Op) : bool :=
  match o with Get _ => true | Put _ _ => false end.

(** Modelled from the spec: access order as a client sees it (section 8,
    "by access order, not insertion order"): the position in [ops] of the
    last operation on [k], counted from [i]. *)
Fixpoint last_use_from (i : nat) (k : string) (ops : list Op) (seen : option nat)
  : option nat :=
  match ops with
  | [] => seen
  | o :: r => last_use_from (S i) k r (if String.eqb (op_key o) k then Some i else seen)
  end.

(** The position of the last operation on [k] in [ops]. *)
Definition last_use (k : string) (ops : list Op) : option nat :=
  last_use_from 0 k ops None.

(** While no more than [C] distinct keys have been inserted, the cache
    holds exactly the inserted keys, and the access time of each entry is
    the position of the last operation on its key. *)
Definition filling (C : nat) (ops : list Op) (c : Cache) : Prop :=
  capacity c = C /\ clock c = length ops
  /\ key <$> entries c = put_keys ops
  /\ forall e, e ∈ entries c -> last_use (key e) ops = Some (lastAccess e).

(** A decision to fill sample caches with. *)
Definition allow : Decision := {| action := ALLOW; messages := []; policyId := None |}.

End DecisionCache.

Module DecisionEngine.

Import CacheKey DecisionCache.

(** Modelled from the spec: the error taxonomy of section 7. *)
Inductive ErrorKind : Type :=
| MalformedInputError
| PoolExhaustedError
| ScriptLoadError
| CheckTimeoutError
| ScriptRuntimeError.

(** Modelled from the spec: one raw verdict of the policy script (section
    4.6, step 5). *)
Record Finding : Type := mkFinding {
  finding_action : Action;
  finding_message : string;
  finding_policy : string
}.

(** Modelled from the spec: what invoking the entry point of the policy
    gives (section 4.6, steps 4 to 6): its verdicts, a runtime error, or no
    answer within the timeout. *)
Inductive Invocation : Type :=
| Verdicts (findings : list Finding)
| Raises (message : string)
| Overruns.

(** Modelled from the spec: an operator-supplied policy script: whether a
    context can be initialised with it, and its entry point. *)
Record Policy : Type := mkPolicy {
  loads : bool;
  invoke : CheckParameter -> Invocation
}.

(** Modelled from the spec: the Interpreter Pool of section 4.5 as one
    caller sees it: the contexts that are idle and busy, the configured
    maximum, and the number of calls of [acquire] so far. *)
Record Pool : Type := mkPool {
  max_size : nat;
  idle : nat;
  busy : nat;
  acquisitions : nat
}.

(** Modelled from the spec: [acquire] of section 4.5. An idle context is
    taken; without one the pool grows up to its maximum, initialising the
    new context with the policy; at the maximum the bounded wait ends in
    [PoolExhaustedError], as nobody releases a context meanwhile. *)
Definition acquire (policy : Policy) (p : Pool) : ErrorKind + unit * Pool :=
  let count := S (acquisitions p) in
  if 0 <? idle p then
    inr (tt, {| max_size := max_size p; idle := idle p - 1; busy := S (busy p);
                acquisitions := count |})
  else if idle p + busy p <? max_size p then
    if loads policy then
      inr (tt, {| max_size := max_size p; idle := idle p; busy := S (busy p);
                  acquisitions := count |})
    else inl ScriptLoadError
  else inl PoolExhaustedError.

(** Modelled from the spec: the pool after an [acquire] that failed: the
    call is counted, no context changes hands. *)
Definition refused (p : Pool) : Pool :=
  {| max_size := max_size p; idle := idle p; busy := busy p;
     acquisitions := S (acquisitions p) |}.

(** Modelled from the spec: [release] of section 4.5. *)
Definition release (p : Pool) : Pool :=
  {| max_size := max_size p; idle := S (idle p); busy := busy p - 1;
     acquisitions := acquisitions p |}.

(** Modelled from the spec: [invalidate] of section 4.5: the context is
    discarded, its replacement is created on demand. *)
Definition invalidate (p : Pool) : Pool :=
  {| max_size := max_size p; idle := idle p; busy := busy p - 1;
     acquisitions := acquisitions p |}.

(** Modelled from the spec: the shared services of the engine and its
    diagnostic log. *)
Record Engine : Type := mkEngine {
  cache : Cache;
  pool : Pool;
  diagnostics : list ErrorKind
}.

(** Modelled from the spec: the terminal states of section 4.6. *)
Inductive Final : Type := COMPLETE | FAILED.

(** Modelled from the spec: what a check hands back: the decision it
    reports and the terminal state it reached. *)
Record Outcome : Type := mkOutcome {
  reported : Decision;
  final : Final
}.

(** Modelled from the spec: the precedence of actions of step 5,
    BLOCK over LOG over ALLOW. *)
Definition severity (a : Action) : nat :=
  match a with ALLOW => 0 | LOG => 1 | BLOCK => 2 end.

(** The more severe of two actions. *)
Definition worse (a b : Action) : Action :=
  if severity a <? severity b then b else a.

(** Modelled from the spec: step 5 of section 4.6, the verdicts
    normalised into a decision: the most severe action wins. *)
Definition normalize (findings : list Finding) : Decision :=
  let top := foldr (fun f a => worse (finding_action f) a) ALLOW findings in
  {| action := top;
     messages := finding_message <$> findings;
     policyId := finding_policy <$>
                   List.find (fun f => severity top =? severity (finding_action f)) findings |}.

(** Modelled from the spec: the fail-open decision of step 6. *)
Definition fail_open : Decision :=
  {| action := ALLOW; messages := []; policyId := None |}.

(** Modelled from the spec: the FAILED state of step 6: the fail-open
    decision is reported and a diagnostic is logged. It is the one decision
    this check produces, and as such it is cached under the key of the
    check (section 3: an invocation produces one decision, cached under
    one entry); the idempotence of section 8 holds for every outcome only
    so. *)
Definition failed (e : ErrorKind) (k : string) (c : Cache) (p : Pool) (eng : Engine)
  : Outcome * Engine :=
  ({| reported := fail_open; final := FAILED |},
   {| cache := put k fail_open c; pool := p; diagnostics := diagnostics eng ++ [e] |}).

(** Modelled from the spec: [decide] of section 4.6 for a built
    parameter: the key, the cache lookup, and on a miss the policy run on a
    borrowed context. The decision of the check, normalised from the
    verdicts in step 5 or the fail-open one of step 6, is stored under the
    key. *)
Definition decide (policy : Policy) (p : CheckParameter) (eng : Engine) : Outcome * Engine :=
  let k := deriveKey p in
  match get k (cache eng) with
  | (Some d, c) =>
      ({| reported := d; final := COMPLETE |},
       {| cache := c; pool := pool eng; diagnostics := diagnostics eng |})
  | (None, c) =>
      match acquire policy (pool eng) with
      | inl e => failed e k c (refused (pool eng)) eng
      | inr (_, pl) =>
          match invoke policy p with
          | Verdicts findings =>
              let d := normalize findings in
              ({| reported := d; final := COMPLETE |},
               {| cache := put k d c; pool := release pl; diagnostics := diagnostics eng |})
          | Raises _ => failed ScriptRuntimeError k c (invalidate pl) eng
          | Overruns => failed CheckTimeoutError k c (invalidate pl) eng
          end
      end
  end.

(** *** Sample policies and checks *)

(** A policy whose entry point raises an error. *)
Definition raising_policy : Policy :=
  {| loads := true; invoke := fun _ => Raises "TypeError" |}.

(** A policy that logs and blocks every check. *)
Definition blocking_policy : Policy :=
  {| loads := true;
     invoke := fun _ => Verdicts [ {| finding_action := LOG; finding_message := "shell";
                                      finding_policy := "3001" |};
                                   {| finding_action := BLOCK;
                                      finding_message := "shell command execution detected";
                                      finding_policy := "3002" |} ] |}.

(** An engine with an empty cache and a pool of at most two contexts. *)
Definition fresh_engine : Engine :=
  {| cache := empty 8;
     pool := {| max_size := 2; idle := 0; busy := 0; acquisitions := 0 |};
     diagnostics := [] |}.

(** The same shell command checked from two call sites: the stacks
    differ, the cache keys do not. *)
Definition shell_check : CheckParameter :=
  {| type := COMMAND;
     fields := [("command", VString "/bin/sh -c id"); ("stack", VArray ["a"; "b"])] |}.

Definition shell_check_again : CheckParameter :=
  {| type := COMMAND;
     fields := [("command", VString "/bin/sh -c id"); ("stack", VArray ["c"])] |}.

End DecisionEngine.

(* ===================================================================== *)
(** * Part II: properties                                                 *)
(* ===================================================================== *)

(** ** The byte-array form of [checkCommand] *)

Section BytesFacts.

Import ProcessBuilderHook.

Variable newString : list Byte.byte -> string.

Lemma is_zero_true b : is_zero b = true <-> b = Byte.x00.
Proof.
  unfold is_zero. split.
  - apply Byte.byte_dec_bl.
  - intros ->. reflexivity.
Qed.

Lemma copyOfRange_prefix (pre suf : list Byte.byte) (position : nat) :
  (position <= length pre)%nat ->
  copyOfRange (pre ++ suf) position (length pre) = drop position pre.
Proof.
  intros Hle. unfold copyOfRange.
  rewrite drop_app_le by exact Hle.
  rewrite take_app_le by (rewrite length_drop; lia).
  apply take_ge. rewrite length_drop. lia.
Qed.

(** The loop with indices computes the pieces: [pre] has been read,
    [suf] is still to come. *)
Lemma split_args_pieces (suf pre : list Byte.byte) (position : nat) (commands : list string) :
  (position <= length pre)%nat ->
  split_args newString (pre ++ suf) (length suf) (length pre) position commands
  = commands ++ (newString <$> zero_terminated (drop position pre) suf).
Proof.
  revert pre position commands.
  induction suf as [|b suf IH]; intros pre position commands Hle; simpl.
  - now rewrite app_nil_r.
  - rewrite list_lookup_middle by reflexivity.
    assert (Hcons : pre ++ b :: suf = (pre ++ [b]) ++ suf) by now rewrite <- app_assoc.
    assert (Hlen : S (length pre) = length (pre ++ [b])) by (rewrite length_app; simpl; lia).
    destruct (is_zero b) eqn:Hb.
    + rewrite copyOfRange_prefix by exact Hle.
      rewrite Hcons, Hlen at 1. rewrite Hlen.
      rewrite IH by lia.
      rewrite drop_all. rewrite <- app_assoc. reflexivity.
    + rewrite Hcons, Hlen.
      rewrite IH by (rewrite length_app; simpl; lia).
      rewrite drop_app_le by exact Hle. reflexivity.
Qed.

Lemma zero_terminated_count (bytes cur : list Byte.byte) :
  length (zero_terminated cur bytes) = length (List.filter is_zero bytes).
Proof.
  revert cur. induction bytes as [|b r IH]; intros cur; simpl; [reflexivity|].
  destruct (is_zero b); simpl; now rewrite IH.
Qed.

Lemma zero_terminated_decompose (bytes cur : list Byte.byte) :
  cur ++ bytes
  = concat ((fun piece => piece ++ [Byte.x00]) <$> zero_terminated cur bytes)
    ++ unterminated cur bytes.
Proof.
  revert cur. induction bytes as [|b r IH]; intros cur; simpl.
  - now rewrite app_nil_r.
  - destruct (is_zero b) eqn:Hb.
    + apply is_zero_true in Hb. subst b.
      rewrite fmap_cons. simpl concat.
      rewrite <- !app_assoc. rewrite <- (IH []). reflexivity.
    + rewrite <- IH. now rewrite <- app_assoc.
Qed.

Lemma zero_terminated_zero_free (bytes cur : list Byte.byte) :
  Forall (fun b => is_zero b = false) cur ->
  Forall (Forall (fun b => is_zero b = false)) (zero_terminated cur bytes)
  /\ Forall (fun b => is_zero b = false) (unterminated cur bytes).
Proof.
  revert cur. induction bytes as [|b r IH]; intros cur Hcur; simpl.
  - split; [constructor | exact Hcur].
  - destruct (is_zero b) eqn:Hb.
    + destruct (IH [] (Forall_nil_2 _)) as [H1 H2]. split; [constructor; assumption | exact H2].
    + apply IH. apply Forall_app. split; [exact Hcur | repeat constructor; exact Hb].
Qed.

Lemma take_pred_removelast (l : list Byte.byte) :
  take (length l - 1) l = removelast l.
Proof.
  induction l as [|a l IH]; [reflexivity|].
  destruct l as [|b l]; [reflexivity|].
  replace (length (a :: b :: l) - 1)%nat with (S (length (b :: l) - 1))
    by (simpl; lia).
  change (removelast (a :: b :: l)) with (a :: removelast (b :: l)).
  rewrite <- IH. reflexivity.
Qed.

(** C10. In [checkCommand(byte[] command, byte[] args)] a non-empty
    [command] array contributes one string, decoded from the array without
    its final byte; [args] is cut at each zero byte and contributes one
    string per zero byte, each decoded from the bytes before that zero byte
    and after the previous one; the bytes after the last zero byte
    contribute nothing. The pieces and the discarded rest contain no zero
    byte, and put back together with the zero bytes they are [args]. *)
Theorem checkCommand_bytes_contribution (command args : option (list Byte.byte)) :
  let bytes := default [] args in
  commands_of_bytes newString command args
  = newString <$> (command_piece command ++ zero_terminated [] bytes)
  /\ (forall init b, command = Some (init ++ [b]) -> command_piece command = [init])
  /\ length (zero_terminated [] bytes) = length (List.filter is_zero bytes)
  /\ bytes = concat ((fun piece => piece ++ [Byte.x00]) <$> zero_terminated [] bytes)
             ++ unterminated [] bytes
  /\ Forall (Forall (fun b => is_zero b = false)) (zero_terminated [] bytes)
  /\ Forall (fun b => is_zero b = false) (unterminated [] bytes)
  /\ forall env, checkCommand_bytes newString env command args
                 = checkCommand env (Some (commands_of_bytes newString command args)).
Proof.
  intros bytes. repeat split.
  - unfold commands_of_bytes.
    assert (Hargs : forall commands,
               match args with
               | Some ((_ :: _) as a) => split_args newString a (length a) 0 0 commands
               | _ => commands
               end = commands ++ (newString <$> zero_terminated [] bytes)).
    { intros commands. subst bytes. destruct args as [[|b a]|]; simpl default.
      - now rewrite app_nil_r.
      - exact (split_args_pieces (b :: a) [] 0 commands (le_n 0)).
      - now rewrite app_nil_r. }
    rewrite Hargs. rewrite fmap_app. f_equal.
    destruct command as [[|c0 c]|]; try reflexivity.
    unfold command_piece. rewrite <- take_pred_removelast. reflexivity.
  - intros init b ->. unfold command_piece.
    destruct init; simpl; [reflexivity|].
    rewrite removelast_last. destruct (init ++ [b]) eqn:E; [|reflexivity].
    now apply app_eq_nil in E as [_ E].
  - apply zero_terminated_count.
  - apply (zero_terminated_decompose bytes []).
  - apply (zero_terminated_zero_free bytes []). constructor.
  - apply (zero_terminated_zero_free bytes []). constructor.
Qed.

End BytesFacts.

(** With one byte to a character: the command [/bin/sh] and the arguments
    [-c] and [id], each ended by a zero byte, give the three strings; an
    argument without its zero byte is lost. *)
Example commands_of_bytes_sh :
  let bytes s := list_byte_of_string s in
  ProcessBuilderHook.commands_of_bytes string_of_list_byte
    (Some (bytes "/bin/sh" ++ [Byte.x00]))
    (Some (bytes "-c" ++ [Byte.x00] ++ bytes "id" ++ [Byte.x00]))
  = ["/bin/sh"; "-c"; "id"]
  /\ ProcessBuilderHook.commands_of_bytes string_of_list_byte
       (Some (bytes "/bin/sh" ++ [Byte.x00]))
       (Some (bytes "-c" ++ [Byte.x00] ++ bytes "id"))
     = ["/bin/sh"; "-c"]
  /\ ProcessBuilderHook.commands_of_bytes string_of_list_byte None (Some []) = [].
Proof. vm_compute. repeat split. Qed.

(** ** [checkCommand(List<String>)] *)

Section HookFacts.

Import ProcessBuilderHook.

(** The model of [StringUtils.join] agrees with the concatenation of the
    standard library. *)
Lemma join_concat (sep : string) (l : list string) : Str.join sep l = String.concat sep l.
Proof.
  induction l as [|x [|y r] IH]; reflexivity.
Qed.

(** A call on a non-empty list, by the outcome of the two collaborators of
    the [try] block. *)
Lemma checkCommand_run (env : Env) (c0 : string) (cs : list string) (s : State) :
  let command := c0 :: cs in
  let o1 : Scriptable := <["command" := JSString (Str.join " " command)]> ∅ in
  checkCommand env (Some command) s =
  match enterAndInitContext env with
  | Throws t =>
      (Returns tt, {| params := None; log := log s ++ [hook_error env t]; checks := checks s |})
  | Returns _ =>
      match getStackTraceArray env (REFLECTION_STACK_START_INDEX env) (getPluginMaxStack env) with
      | Returns stackInfo =>
          let o := <["stack" := JSArray stackInfo]> o1 in
          (doCheckWithoutRequest env COMMAND o,
           {| params := Some o; log := log s; checks := checks s ++ [(COMMAND, o)] |})
      | Throws t =>
          (doCheckWithoutRequest env COMMAND o1,
           {| params := Some o1; log := log s ++ [hook_error env t];
              checks := checks s ++ [(COMMAND, o1)] |})
      end
  end.
Proof.
  intros command o1. subst command o1.
  unfold checkCommand, bind, try_catch, build_params, bind, call, declare_params,
    assign_newObject, put, log_hook_error, warn, doCheck, hook_error.
  cbn [params log checks].
  destruct (enterAndInitContext env) as [[]|t]; cbn [params log checks]; [|reflexivity].
  destruct (getStackTraceArray env _ _) as [stackInfo|t]; cbn [params log checks]; reflexivity.
Qed.

(** C2. For a non-empty command list, once the script context is entered,
    the hook hands the engine one check of type [COMMAND] whose [command]
    property is the list joined by single spaces; for
    [/bin/sh; -c; id] that is [/bin/sh -c id]. *)
Theorem checkCommand_command_field (env : Env) (command : list string) :
  command <> [] ->
  enterAndInitContext env = Returns tt ->
  (exists o : Scriptable,
      checks (snd (run (checkCommand env (Some command)))) = [(COMMAND, o)]
      /\ o !! "command" = Some (JSString (Str.join " " command)))
  /\ Str.join " " command = String.concat " " command
  /\ Str.join " " ["/bin/sh"; "-c"; "id"] = "/bin/sh -c id".
Proof.
  intros Hne Henter. split; [|split; [apply join_concat | reflexivity]].
  destruct command as [|c0 cs]; [congruence|].
  unfold run. rewrite checkCommand_run, Henter.
  destruct (getStackTraceArray env _ _) as [stackInfo|t]; cbn [snd checks initial app];
    eexists; (split; [reflexivity|]).
  - rewrite lookup_insert_ne by discriminate. apply lookup_insert_eq.
  - apply lookup_insert_eq.
Qed.

Lemma checkCommand_command_field_witness :
  (exists o : Scriptable,
      checks (snd (run (checkCommand quiet_env (Some ["/bin/sh"; "-c"; "id"])))) = [(COMMAND, o)]
      /\ o !! "command" = Some (JSString (Str.join " " ["/bin/sh"; "-c"; "id"])))
  /\ Str.join " " ["/bin/sh"; "-c"; "id"] = String.concat " " ["/bin/sh"; "-c"; "id"]
  /\ Str.join " " ["/bin/sh"; "-c"; "id"] = "/bin/sh -c id".
Proof.
  apply (checkCommand_command_field quiet_env ["/bin/sh"; "-c"; "id"]).
  - discriminate.
  - reflexivity.
Defined.

(** C3, as the code has it. A [null] or empty command list is skipped
    silently: the call returns normally and leaves the state as it was, so
    no parameter is built, nothing is logged and the engine is not called. *)
Theorem checkCommand_skips_empty (env : Env) (s : State) :
  checkCommand env None s = (Returns tt, s)
  /\ checkCommand env (Some []) s = (Returns tt, s)
  /\ ~ error_outcome (run (checkCommand env None))
  /\ ~ error_outcome (run (checkCommand env (Some []))).
Proof.
  repeat split; try reflexivity;
    intros [[t Ht] | Hlog]; cbn in *; congruence.
Qed.

(** C3 as stated fails: on the empty list no error outcome is produced. *)
Lemma checkCommand_empty_no_error :
  ~ (forall env command,
        command = None \/ command = Some [] ->
        error_outcome (run (checkCommand env command))).
Proof.
  intros H. specialize (H quiet_env (Some []) (or_intror eq_refl)).
  destruct H as [[t Ht] | Hlog]; cbn in *; congruence.
Qed.

(** C1, as the code has it. Whatever statement of the [try] block
    raises a throwable, the [try] statement completes normally and the
    throwable is logged as a hook error; so it never leaves
    [checkCommand]: raised before
    [params] is assigned, the check is skipped and the call returns
    normally; raised by the stack capture, [doCheckWithoutRequest] is still
    called, on the object that holds the command alone. The call of
    [doCheckWithoutRequest] stands outside the [try] block: a throwable
    leaves [checkCommand] only from there, and [checkCommand] returns
    normally whenever that call does. *)
Theorem checkCommand_try_block (env : Env) (command : option (list string)) :
  let r := run (checkCommand env command) in
  (forall (body : M unit) (s : State),
      fst (try_catch body (log_hook_error env) s) = Returns tt
      /\ forall t s', body s = (Throws t, s') ->
           snd (try_catch body (log_hook_error env) s)
           = {| params := params s'; log := log s' ++ [hook_error env t];
                checks := checks s' |})
  /\ (forall t c, command = Some c -> c <> [] ->
      enterAndInitContext env = Throws t ->
      r = (Returns tt, {| params := None; log := [hook_error env t]; checks := [] |}))
  /\ (forall t c, command = Some c -> c <> [] ->
      enterAndInitContext env = Returns tt ->
      getStackTraceArray env (REFLECTION_STACK_START_INDEX env) (getPluginMaxStack env) = Throws t ->
      let o : Scriptable := <["command" := JSString (Str.join " " c)]> ∅ in
      r = (doCheckWithoutRequest env COMMAND o,
           {| params := Some o; log := [hook_error env t]; checks := [(COMMAND, o)] |}))
  /\ (forall t, fst r = Throws t ->
      exists o, checks (snd r) = [(COMMAND, o)] /\ doCheckWithoutRequest env COMMAND o = Throws t)
  /\ ((forall o, doCheckWithoutRequest env COMMAND o = Returns tt) -> fst r = Returns tt).
Proof.
  intros r. subst r. unfold run. split.
  { intros body s. unfold try_catch.
    destruct (body s) as [[[]|t] s'] eqn:Hbody; cbn [fst snd].
    - split; [reflexivity | intros ? ? [=]].
    - split; [reflexivity | intros ? ? [= <- <-]; reflexivity]. }
  destruct command as [[|c0 cs]|].
  2: { rewrite checkCommand_run. cbn [log checks initial app].
       repeat split.
       - intros t c [= <-] _ ->. reflexivity.
       - intros t c [= <-] _ -> ->. reflexivity.
       - intros t.
         destruct (enterAndInitContext env) as [[]|t']; cbn [fst snd checks]; [|discriminate].
         destruct (getStackTraceArray env _ _); cbn [fst snd checks]; eauto.
       - intros Hok.
         destruct (enterAndInitContext env) as [[]|t']; cbn [fst]; [|reflexivity].
         destruct (getStackTraceArray env _ _); cbn [fst]; apply Hok. }
  all: repeat split; try discriminate; try reflexivity.
  all: try (intros t c [= <-] Hc; congruence).
Qed.

(** C1 as stated fails: [checkCommand] does not return normally for every
    input, and an error while building does not force the outcome. *)
Lemma checkCommand_may_throw :
  ~ (forall env command, fst (run (checkCommand env command)) = Returns tt).
Proof.
  intros H. specialize (H blocking_env (Some ["rm"; "-rf"; "/"])).
  vm_compute in H. discriminate H.
Qed.

(** The two ways of a failure in the [try] block, run. *)
Example checkCommand_without_context :
  run (checkCommand contextless_env (Some ["rm"; "-rf"; "/"]))
  = (Returns tt,
     {| params := None;
        log := [hook_error contextless_env (mkThrowable (Some "no context"))];
        checks := [] |}).
Proof. reflexivity. Qed.

Example checkCommand_without_stack :
  run (checkCommand blocking_env (Some ["rm"; "-rf"; "/"]))
  = (Throws (mkThrowable (Some "Request blocked by OpenRASP")),
     {| params := Some {[ "command" := JSString "rm -rf /" ]};
        log := [hook_error blocking_env (mkThrowable (Some "stack unavailable"))];
        checks := [(COMMAND, {[ "command" := JSString "rm -rf /" ]})] |}).
Proof. reflexivity. Qed.

End HookFacts.

(** ** [AddDependency] *)

Section AddDependencyFacts.

Import Dependency.

Lemma append_assoc (a b c : string) : (a +:+ b) +:+ c = a +:+ b +:+ c.
Proof.
  induction a as [|x a IH]; [reflexivity|].
  change (String x ((a +:+ b) +:+ c) = String x (a +:+ b +:+ c)). now rewrite IH.
Qed.

Lemma append_nil_r (a : string) : a +:+ "" = a.
Proof.
  induction a as [|x a IH]; [reflexivity|].
  change (String x (a +:+ "") = String x a). now rewrite IH.
Qed.

Lemma contents_snoc (l : list Dependency) (d : Dependency) :
  contents (l ++ [d]) = contents l +:+ own_content d.
Proof.
  induction l as [|x l IH]; simpl.
  - apply append_nil_r.
  - rewrite IH. now rewrite append_assoc.
Qed.

Lemma add_step_id (env : Env) (rasp : Rasp.t) (i : nat) (idContent : string) (d : Dependency) :
  fst (add_step env rasp i idContent d) = idContent +:+ own_content d
  /\ UpsertId (snd (add_step env rasp i idContent d)) = idContent +:+ own_content d.
Proof.
  unfold add_step, own_content. cbn [fst snd UpsertId]. now rewrite !append_assoc.
Qed.

Lemma add_loop_processed (env : Env) (rasp : Rasp.t) (dependencies : list Dependency) :
  forall (i : nat) (idContent : string) (docs : list Dependency),
    add_loop env rasp i idContent dependencies docs
    = docs ++ processed env rasp i idContent dependencies.
Proof.
  induction dependencies as [|d rest IH]; intros i idContent docs; cbn [add_loop processed].
  - now rewrite app_nil_r.
  - destruct (add_step env rasp i idContent d) as [idContent' d'].
    rewrite IH. cbn [fst snd]. now rewrite <- app_assoc.
Qed.

(** The j-th document is what one step makes of the j-th dependency, with
    the contributions of all earlier ones already in [idContent]. *)
Lemma processed_lookup (env : Env) (rasp : Rasp.t) (dependencies : list Dependency) :
  forall (i : nat) (idContent : string) (j : nat) (d : Dependency),
    dependencies !! j = Some d ->
    processed env rasp i idContent dependencies !! j
    = Some (snd (add_step env rasp (i + j) (idContent +:+ contents (take j dependencies)) d)).
Proof.
  induction dependencies as [|x rest IH]; intros i idContent j d Hj; [discriminate|].
  destruct j as [|j]; cbn [processed].
  - injection Hj as <-. cbn [take contents foldr lookup list_lookup].
    now rewrite append_nil_r, Nat.add_0_r.
  - cbn [lookup list_lookup]. change (rest !! j = Some d) in Hj.
    change (processed env rasp (S i) (fst (add_step env rasp i idContent x)) rest !! j
            = Some (snd (add_step env rasp (i + S j)
                           (idContent +:+ contents (x :: take j rest)) d))).
    rewrite (IH _ _ _ _ Hj).
    destruct (add_step_id env rasp i idContent x) as [-> _].
    cbn [contents foldr]. rewrite append_assoc.
    now replace (S i + j)%nat with (i + S j)%nat by lia.
Qed.

(** C4, as the code has it. [idContent] is declared before the loop and
    only ever appended to, so the [UpsertId] of the j-th dependency is the
    concatenation of the path, tag and agent id of every dependency up to
    and including it, as they came in. It is no function of the dependency
    alone: the same dependency gets another key at another position. *)
Theorem AddDependency_upsert_id_accumulates :
  (forall env rasp dependencies j d,
      dependencies !! j = Some d ->
      UpsertId <$> (fst (AddDependency env rasp dependencies) !! j)
      = Some (contents (take j dependencies) +:+ own_content d))
  /\ ~ (exists f : list string -> string -> string -> string,
          forall env rasp dependencies j d,
            dependencies !! j = Some d ->
            UpsertId <$> (fst (AddDependency env rasp dependencies) !! j)
            = Some (f (Path d) (Tag d) (RaspId d))).
Proof.
  assert (Hgen : forall env rasp dependencies j d,
             dependencies !! j = Some d ->
             UpsertId <$> (fst (AddDependency env rasp dependencies) !! j)
             = Some (contents (take j dependencies) +:+ own_content d)).
  { intros env rasp dependencies j d Hj.
    assert (Hdocs : fst (AddDependency env rasp dependencies)
                    = processed env rasp 0 "" dependencies).
    { unfold AddDependency. rewrite add_loop_processed.
      destruct (AddLogsWithKafka env _ _ _); reflexivity. }
    rewrite Hdocs, (processed_lookup _ _ _ _ _ _ _ Hj). cbn [fmap option_fmap option_map].
    f_equal. now destruct (add_step_id env rasp (0 + j) ("" +:+ contents (take j dependencies)) d)
      as [_ ->]. }
  split; [exact Hgen|].
  intros [f Hf].
  set (env := {| UnixNano := fun _ => 0%Z; AddLogsWithKafka := fun _ _ _ => None;
                 GetIndex := fun a b => a; BulkInsert := fun _ _ _ => None;
                 es_Version := "6.8.0"; Search := fun _ => (None, None);
                 maxSliceCap := 1000%Z |}).
  set (rasp := {| Rasp.Id := "rasp-1"; Rasp.AppId := "app-1"; Rasp.HostName := "host";
                  Rasp.RegisterIp := "10.0.0.1" |}).
  set (d := {| UpsertId := ""; Path := ["/lib/a.jar"]; CreateTime := 0%Z; RaspId := "";
               HostName := ""; RegisterIp := ""; AppId := ""; Vendor := "org.apache";
               Product := "commons"; Version := "3.1"; Tag := ""; SearchString := "";
               Source := "pom" |}).
  pose proof (Hf env rasp [d] 0%nat d eq_refl) as H1.
  pose proof (Hf env rasp [d; d] 1%nat d eq_refl) as H2.
  rewrite (Hgen env rasp [d] 0%nat d eq_refl) in H1.
  rewrite (Hgen env rasp [d; d] 1%nat d eq_refl) in H2.
  rewrite <- H1 in H2. vm_compute in H2. discriminate H2.
Qed.

(** Two dependencies of one batch: the key of the second one starts with
    the key of the first. *)
Example AddDependency_two :
  let d path := {| UpsertId := ""; Path := [path]; CreateTime := 0%Z; RaspId := "";
                   HostName := ""; RegisterIp := ""; AppId := ""; Vendor := "org.apache";
                   Product := "commons"; Version := "3.1"; Tag := ""; SearchString := "";
                   Source := "pom" |} in
  let rasp := {| Rasp.Id := "rasp-1"; Rasp.AppId := "app-1"; Rasp.HostName := "host";
                 Rasp.RegisterIp := "10.0.0.1" |} in
  let docs := fst (AddDependency sample_env rasp [d "/lib/a.jar"; d "/lib/b.jar"]) in
  UpsertId <$> docs = ["[/lib/a.jar]"; "[/lib/a.jar][/lib/b.jar]"]
  /\ Tag <$> docs = ["org.apache:commons:3.1"; "org.apache:commons:3.1"]
  /\ RaspId <$> docs = ["rasp-1"; "rasp-1"]
  /\ CreateTime <$> docs = [1700000000000%Z; 1700000000000%Z].
Proof. vm_compute. repeat split. Qed.

End AddDependencyFacts.

(** ** [AggrDependencyByQuery] *)

Section AggregationFacts.

Import Dependency.

#[local] Arguments String.append : simpl nomatch.

Lemma wrap64_small (z : Z) : (- 2 ^ 63 <= z < 2 ^ 63)%Z -> wrap64 z = z.
Proof. intros H. unfold wrap64. rewrite Z.mod_small; lia. Qed.

(** *** [strings.Split] on one character *)

Lemma split_not_nil (c : ascii) (s : string) : Str.split c s <> [].
Proof.
  induction s as [|a s IH]; simpl; [discriminate|].
  destruct (Ascii.eqb a c); [discriminate|].
  destruct (Str.split c s); [contradiction | discriminate].
Qed.

Lemma split_free (c : ascii) (s : string) : Str.occurs c s = false -> Str.split c s = [s].
Proof.
  induction s as [|a s IH]; simpl; [reflexivity|].
  intros H. apply orb_false_iff in H as [Ha Hs]. rewrite Ha, (IH Hs). reflexivity.
Qed.

Lemma split_app (c : ascii) (a b : string) :
  Str.occurs c a = false -> Str.split c (a +:+ String c b) = a :: Str.split c b.
Proof.
  induction a as [|x a IH]; simpl; intros H.
  - now rewrite Ascii.eqb_refl.
  - apply orb_false_iff in H as [Hx Ha]. rewrite Hx, (IH Ha). reflexivity.
Qed.

Lemma split_pieces_free (c : ascii) (s : string) :
  Forall (fun p => Str.occurs c p = false) (Str.split c s).
Proof.
  induction s as [|a s IH]; simpl.
  - repeat constructor.
  - destruct (Ascii.eqb a c) eqn:Ha.
    + constructor; [reflexivity | exact IH].
    + destruct (Str.split c s) as [|h t]; [repeat constructor; simpl; now rewrite Ha|].
      inversion IH; subst. constructor; [simpl; now rewrite Ha | assumption].
Qed.

Lemma join_split (c : ascii) (s : string) :
  Str.join (String c "") (Str.split c s) = s.
Proof.
  induction s as [|a s IH]; simpl; [reflexivity|].
  destruct (Ascii.eqb a c) eqn:Ha.
  - apply Ascii.eqb_eq in Ha. subst a.
    destruct (Str.split c s) as [|h t] eqn:E; [now apply split_not_nil in E|].
    change (Str.join (String c "") ("" :: h :: t))
      with (String c (Str.join (String c "") (h :: t))).
    now rewrite IH.
  - destruct (Str.split c s) as [|h t] eqn:E; [now apply split_not_nil in E|].
    destruct t as [|h' t].
    + simpl in IH. simpl. now rewrite IH.
    + change (Str.join (String c "") (String a h :: h' :: t))
        with (String a (Str.join (String c "") (h :: h' :: t))).
      now rewrite IH.
Qed.

Example split_examples :
  Str.split ":" "org.apache:commons:3.1" = ["org.apache"; "commons"; "3.1"]
  /\ Str.split ":" "" = [""]
  /\ Str.split ":" "a::b" = ["a"; ""; "b"]
  /\ Str.split ":" "no-colon" = ["no-colon"].
Proof. repeat split. Qed.

(** A tag has exactly three components when it is three colon-free strings
    around two colons. *)
Lemma split_three (tag vendor product version : string) :
  Str.split ":" tag = [vendor; product; version]
  <-> tag = vendor +:+ ":" +:+ product +:+ ":" +:+ version
      /\ Str.occurs ":" vendor = false
      /\ Str.occurs ":" product = false
      /\ Str.occurs ":" version = false.
Proof.
  split.
  - intros H. pose proof (join_split ":" tag) as Hj.
    pose proof (split_pieces_free ":" tag) as Hf. rewrite H in Hj, Hf.
    inversion Hf as [|? ? Hv Hf1]; subst. inversion Hf1 as [|? ? Hp Hf2]; subst.
    inversion Hf2 as [|? ? Hver _]; subst.
    repeat split; try assumption; try (symmetry; exact Hj).
  - intros (-> & Hv & Hp & Hver).
    change (vendor +:+ ":" +:+ product +:+ ":" +:+ version)
      with (vendor +:+ String ":" (product +:+ String ":" version)).
    now rewrite (split_app _ _ _ Hv), (split_app _ _ _ Hp), (split_free _ _ Hver).
Qed.

(** *** The paging loop *)

Lemma append_bucket_reported (item : option AggregationBucketKeyItem) (result : list Entry) :
  append_bucket item result = result ++ omap reported [item].
Proof.
  unfold append_bucket, reported. cbn.
  destruct item as [item|]; [|now rewrite app_nil_r].
  destruct (Key item) as [[tag|z]|]; try now rewrite app_nil_r.
  destruct (Str.split ":" tag) as [|d0 [|d1 [|d2 [|d3 l]]]]; cbn; try now rewrite app_nil_r.
  reflexivity.
Qed.

Lemma page_loop_window (buckets : list (option AggregationBucketKeyItem)) (Page Perpage : Z) :
  (1 <= Page)%Z -> (Page * Perpage <= max_int64)%Z ->
  forall (n : nat) (i : Z) (result : list Entry),
    (0 <= i)%Z -> (i + Z.of_nat n <= Perpage)%Z ->
    page_loop buckets (Z.of_nat (length buckets)) Page Perpage n i result
    = Done (result ++ omap reported
                        (take n (drop (Z.to_nat ((Page - 1) * Perpage + i)) buckets))).
Proof.
  intros HPage Hmax. unfold max_int64 in Hmax.
  induction n as [|n IH]; intros i result Hi Hn.
  - cbn. now rewrite app_nil_r.
  - cbn [page_loop].
    assert (Hper : (1 <= Perpage)%Z) by lia.
    assert (Hbase : (0 <= (Page - 1) * Perpage)%Z) by nia.
    assert (Htop : ((Page - 1) * Perpage + Perpage <= 2 ^ 63 - 1)%Z) by nia.
    assert (HP : (Page - 1 < 2 ^ 63)%Z) by nia.
    rewrite (wrap64_small (Page - 1)) by lia.
    rewrite (wrap64_small ((Page - 1) * Perpage)) by lia.
    rewrite (wrap64_small (i + (Page - 1) * Perpage)) by lia.
    replace (i + (Page - 1) * Perpage)%Z with ((Page - 1) * Perpage + i)%Z by lia.
    set (index := ((Page - 1) * Perpage + i)%Z) in *.
    destruct (index >=? Z.of_nat (length buckets))%Z eqn:Hge.
    + rewrite drop_ge by lia. cbn. now rewrite app_nil_r.
    + replace (index <? 0)%Z with false by (symmetry; apply Z.ltb_ge; lia).
      destruct (buckets !! Z.to_nat index) as [item|] eqn:Hitem.
      2: { apply lookup_ge_None in Hitem. lia. }
      rewrite (wrap64_small (i + 1)) by lia.
      rewrite IH by lia.
      rewrite append_bucket_reported, <- app_assoc. f_equal. f_equal.
      rewrite (drop_S _ _ _ Hitem).
      replace (Z.to_nat ((Page - 1) * Perpage + (i + 1))) with (S (Z.to_nat index)) by lia.
      cbn. destruct (reported item); reflexivity.
Qed.

Lemma getDependencyQuery_no_error (param : SearchDependencyParam) :
  snd (getDependencyQuery param) = None.
Proof.
  unfold getDependencyQuery. now destruct (query_loop _ _ _).
Qed.

Lemma reported_iff (item : option AggregationBucketKeyItem) (e : Entry) :
  reported item = Some e
  <-> exists b tag vendor product version,
        item = Some b /\ Key b = Some (KeyString tag)
        /\ tag = vendor +:+ ":" +:+ product +:+ ":" +:+ version
        /\ Str.occurs ":" vendor = false
        /\ Str.occurs ":" product = false
        /\ Str.occurs ":" version = false
        /\ e = make_value tag vendor product version (DocCount b).
Proof.
  split.
  - unfold reported. destruct item as [b|]; [|discriminate].
    destruct (Key b) as [[tag|z]|] eqn:HK; try discriminate.
    destruct (Str.split ":" tag) as [|d0 [|d1 [|d2 [|d3 l]]]] eqn:Hs; try discriminate.
    intros [= <-]. apply split_three in Hs as (Ht & H0 & H1 & H2).
    exists b, tag, d0, d1, d2. repeat split; assumption.
  - intros (b & tag & v & p & ver & -> & HK & Ht & Hv & Hp & Hver & ->).
    unfold reported. rewrite HK.
    assert (Hs : Str.split ":" tag = [v; p; ver]) by (apply split_three; repeat split; assumption).
    now rewrite Hs.
Qed.

Lemma processed_tag (env : Env) (rasp : Rasp.t) (dependencies : list Dependency) :
  forall i idContent,
    Forall (fun doc => Tag doc = Vendor doc +:+ ":" +:+ Product doc +:+ ":" +:+ Version doc)
           (processed env rasp i idContent dependencies).
Proof.
  induction dependencies as [|d rest IH]; intros i idContent; cbn [processed]; constructor.
  - reflexivity.
  - apply IH.
Qed.

(** C9. With a page number of at least one and a page size the platform
    can allocate, when the backend answers the terms aggregation over
    [tag] with a list of buckets (one for each distinct tag value it
    found for the query), [AggrDependencyByQuery] returns as total the number
    of these buckets, and as page the entries of the buckets of that page
    whose key is a string of exactly three components around two colons,
    in order: vendor, product and version are the three components, [tag]
    the key and [rasp_count] the document count. A bucket of the page that
    has no such key is left out of the page and still counted in the
    total. The tags that [AddDependency] stores are
    [Vendor:Product:Version]. *)
Theorem AggrDependencyByQuery_page (env : Env) (appId : string) (param : SearchDependencyParam)
        (order : TermsOrder) (aggregations : gmap string AggregationBucketKeyItems)
        (buckets : list (option AggregationBucketKeyItem)) :
  (1 <= Page param)%Z ->
  (0 <= Perpage param <= maxSliceCap env)%Z ->
  (Page param * Perpage param <= max_int64)%Z ->
  aggr_order env = Done order ->
  Search env (aggr_request (GetIndex env AliasDependencyIndexName appId)
                           (fst (getDependencyQuery param)) order)
  = (Some {| Aggregations := Some aggregations |}, None) ->
  aggregations !! aggrName = Some {| Buckets := Some buckets |} ->
  AggrDependencyByQuery env appId param
  = Done (Z.of_nat (length buckets),
          Some (omap reported (page_window (Page param) (Perpage param) buckets)),
          None)
  /\ (forall item e,
        reported item = Some e
        <-> exists b tag vendor product version,
              item = Some b /\ Key b = Some (KeyString tag)
              /\ tag = vendor +:+ ":" +:+ product +:+ ":" +:+ version
              /\ Str.occurs ":" vendor = false
              /\ Str.occurs ":" product = false
              /\ Str.occurs ":" version = false
              /\ e = make_value tag vendor product version (DocCount b))
  /\ (forall tag vendor product version count,
        let e := make_value tag vendor product version count in
        e !! "vendor" = Some (GoString vendor)
        /\ e !! "product" = Some (GoString product)
        /\ e !! "version" = Some (GoString version)
        /\ e !! "tag" = Some (GoString tag)
        /\ e !! "rasp_count" = Some (GoInt64 count))
  /\ (forall env' rasp dependencies,
        Forall (fun doc => Tag doc = Vendor doc +:+ ":" +:+ Product doc +:+ ":" +:+ Version doc)
               (fst (AddDependency env' rasp dependencies))).
Proof.
  intros HPage HPer Hmax Horder HSearch Hagg.
  split; [|split; [exact reported_iff | split]].
  - unfold AggrDependencyByQuery.
    pose proof (getDependencyQuery_no_error param) as Herr.
    destruct (getDependencyQuery param) as [query err]. cbn [fst snd] in *. subst err.
    rewrite Horder, HSearch.
    assert (Hmake : make_result env (Perpage param) = Done []).
    { unfold make_result.
      replace (Perpage param <? 0)%Z with false by (symmetry; apply Z.ltb_ge; lia).
      replace (maxSliceCap env <? Perpage param)%Z with false
        by (symmetry; apply Z.ltb_ge; lia).
      reflexivity. }
    rewrite Hmake, Hagg.
    rewrite (page_loop_window buckets (Page param) (Perpage param) HPage Hmax) by lia.
    unfold page_window. rewrite Z.add_0_r. reflexivity.
  - intros tag vendor product version count e. subst e. unfold make_value.
    repeat split.
  - intros env' rasp dependencies.
    assert (Hdocs : fst (AddDependency env' rasp dependencies)
                    = processed env' rasp 0 "" dependencies).
    { unfold AddDependency. rewrite add_loop_processed.
      destruct (AddLogsWithKafka env' _ _ _); reflexivity. }
    rewrite Hdocs. apply processed_tag.
Qed.

Lemma AggrDependencyByQuery_page_witness :
  AggrDependencyByQuery sample_env "app" sample_param
  = Done
      (5%Z,
       Some [make_value "org.apache:commons:3.1" "org.apache" "commons" "3.1" 2],
       None).
Proof.
  refine (proj1 (AggrDependencyByQuery_page sample_env "app" sample_param
                   OrderByKeyAsc
                   {[ aggrName := {| Buckets := Some sample_buckets |} ]}
                   sample_buckets _ _ _ _ _ _)).
  - vm_compute. discriminate.
  - split; vm_compute; discriminate.
  - vm_compute. discriminate.
  - reflexivity.
  - reflexivity.
  - reflexivity.
Defined.

(** The second page holds the last bucket only; a page size of zero gives
    an empty page; page zero makes the index negative. *)
Example AggrDependencyByQuery_second_page :
  AggrDependencyByQuery sample_env "app"
    {| Page := 2; Perpage := 3; Data := None |}
  = Done (5%Z, Some [make_value "x:y:z" "x" "y" "z" 5], None).
Proof. vm_compute. reflexivity. Qed.

Example AggrDependencyByQuery_page_zero :
  AggrDependencyByQuery sample_env "app"
    {| Page := 0; Perpage := 3; Data := None |}
  = Panic "index out of range".
Proof. vm_compute. reflexivity. Qed.

End AggregationFacts.

(** ** The stack capturer *)

(** C8. [capture] is a total function; its result never holds more than
    [maxDepth] descriptors, for every offset and depth; with no frame above
    the capture point, with an offset beyond the stack, and in an
    environment that cannot introspect its stack, the result is the empty
    sequence. The descriptors are those of the frames from [startOffset]
    on, in order. *)
Theorem capture_bounded (Frame : Type) (format : Frame -> string)
        (stack : option (list Frame)) (startOffset maxDepth : nat) :
  (length (StackCapturer.capture Frame format stack startOffset maxDepth) <= maxDepth)%nat
  /\ StackCapturer.capture Frame format None startOffset maxDepth = []
  /\ StackCapturer.capture Frame format (Some []) startOffset maxDepth = []
  /\ (forall frames, (length frames <= startOffset)%nat ->
        StackCapturer.capture Frame format (Some frames) startOffset maxDepth = [])
  /\ (forall frames,
        StackCapturer.capture Frame format (Some frames) startOffset maxDepth
        = format <$> take maxDepth (drop startOffset frames))
  /\ (forall frames, (startOffset + maxDepth <= length frames)%nat ->
        length (StackCapturer.capture Frame format (Some frames) startOffset maxDepth)
        = maxDepth).
Proof.
  unfold StackCapturer.capture.
  split; [|split; [|split; [|split; [|split]]]].
  - destruct stack as [frames|]; simpl; [|lia].
    rewrite length_fmap, length_take. lia.
  - reflexivity.
  - now rewrite drop_nil, take_nil.
  - intros frames Hle. rewrite drop_ge by exact Hle. now rewrite take_nil.
  - reflexivity.
  - intros frames Hle. rewrite length_fmap, length_take, length_drop. lia.
Qed.

(** ** The cache key *)

(** C5. [deriveKey] starts with the name of the operation type, so checks
    of different types never get the same key; a COMMAND check of
    [rm -rf /] and a FILE check of the path [rm -rf /] get different keys. *)
Theorem deriveKey_namespaced :
  (forall p q : CacheKey.CheckParameter,
      CacheKey.type p <> CacheKey.type q -> CacheKey.deriveKey p <> CacheKey.deriveKey q)
  /\ (forall p, exists rest,
        CacheKey.deriveKey p = CacheKey.type_name (CacheKey.type p) +:+ ":" +:+ rest)
  /\ CacheKey.deriveKey {| CacheKey.type := CacheKey.COMMAND;
                           CacheKey.fields := [("command", CacheKey.VString "rm -rf /")] |}
     <> CacheKey.deriveKey {| CacheKey.type := CacheKey.FILE;
                              CacheKey.fields := [("path", CacheKey.VString "rm -rf /")] |}.
Proof.
  split; [|split].
  - intros p q Hne Heq. unfold CacheKey.deriveKey in Heq.
    apply (f_equal (String.get 0)) in Heq.
    destruct (CacheKey.type p), (CacheKey.type q); try congruence;
      vm_compute in Heq; discriminate Heq.
  - intros p. eexists. reflexivity.
  - vm_compute. discriminate.
Qed.

Lemma deriveKey_namespaced_witness :
  CacheKey.deriveKey {| CacheKey.type := CacheKey.SQL;
                        CacheKey.fields := [("query", CacheKey.VString "select 1")] |}
  <> CacheKey.deriveKey {| CacheKey.type := CacheKey.DESERIALIZATION;
                           CacheKey.fields := [("query", CacheKey.VString "select 1")] |}.
Proof.
  apply (proj1 deriveKey_namespaced). discriminate.
Defined.

(** ** The decision cache *)

Section CacheFacts.

Import DecisionCache.

Implicit Types (k : string) (e : CacheEntry) (es : list CacheEntry) (c : Cache)
         (ops : list Op) (d : Decision).

Lemma has_key_true k e : has_key k e = true <-> key e = k.
Proof. unfold has_key. apply String.eqb_eq. Qed.

Lemma has_key_false k e : has_key k e = false <-> key e <> k.
Proof. unfold has_key. apply String.eqb_neq. Qed.

Lemma lookup_Some k es e : lookup k es = Some e -> e ∈ es /\ key e = k.
Proof.
  unfold lookup. intros H. apply find_some in H as [Hin Hk].
  split; [now apply list_elem_of_In | now apply has_key_true].
Qed.

Lemma lookup_None k es : lookup k es = None <-> k ∉ key <$> es.
Proof.
  unfold lookup. induction es as [|e es IH]; simpl.
  - split; [intros _; apply not_elem_of_nil | reflexivity].
  - destruct (has_key k e) eqn:Hk.
    + apply has_key_true in Hk. split; [discriminate|].
      intros Hn. exfalso. apply Hn. rewrite Hk. apply list_elem_of_here.
    + apply has_key_false in Hk. rewrite IH, not_elem_of_cons. intuition congruence.
Qed.

Lemma cached_keys k c : cached k c <-> k ∈ key <$> entries c.
Proof.
  unfold cached. destruct (lookup k (entries c)) as [e|] eqn:H.
  - split; [intros _ | eauto].
    apply lookup_Some in H as [Hin <-]. now apply list_elem_of_fmap_2.
  - split; [intros [? ?]; discriminate|].
    intros Hin. now apply lookup_None in H.
Qed.

Lemma refresh_keys k (f : Decision -> Decision) (now : nat) es :
  key <$> refresh k f now es = key <$> es.
Proof.
  unfold refresh. induction es as [|e es IH]; [reflexivity|].
  rewrite !fmap_cons, IH. f_equal. now destruct (has_key k e).
Qed.

Lemma get_keys k c : key <$> entries (snd (get k c)) = key <$> entries c.
Proof.
  unfold get. destruct (lookup k (entries c)); cbn [snd entries]; [apply refresh_keys | reflexivity].
Qed.

(** *** The least recently used entry *)

Lemma least_recent_spec es :
  match least_recent es with
  | Some v => v ∈ es /\ forall e, e ∈ es -> lastAccess v <= lastAccess e
  | None => es = []
  end.
Proof.
  induction es as [|e es IH]; [reflexivity|]. cbn [least_recent].
  destruct (least_recent es) as [m|].
  - destruct IH as [Hin Hmin].
    destruct (lastAccess e <=? lastAccess m) eqn:Hle.
    + apply Nat.leb_le in Hle. split; [apply list_elem_of_here|].
      intros e' [->|He']%elem_of_cons; [lia|]. specialize (Hmin e' He'). lia.
    + apply Nat.leb_gt in Hle. split; [now apply list_elem_of_further|].
      intros e' [->|He']%elem_of_cons; [lia | now apply Hmin].
  - subst es. split; [apply list_elem_of_here|].
    intros e' [->|He']%elem_of_cons; [lia | now apply elem_of_nil in He'].
Qed.

Lemma evict_keys es v :
  least_recent es = Some v ->
  key <$> evict es = List.filter (fun k => negb (String.eqb k (key v))) (key <$> es).
Proof.
  unfold evict. intros ->. induction es as [|e es IH]; [reflexivity|].
  cbn [List.filter fmap list_fmap]. unfold has_key at 1.
  destruct (String.eqb (key e) (key v)); cbn [negb]; [exact IH|].
  rewrite fmap_cons. f_equal. exact IH.
Qed.

Lemma filter_other_length (ks : list string) (v : string) :
  NoDup ks -> v ∈ ks ->
  S (length (List.filter (fun k => negb (String.eqb k v)) ks)) = length ks.
Proof.
  induction 1 as [|k ks Hk Hnd IH]; intros Hin; [now apply elem_of_nil in Hin|].
  cbn [List.filter]. destruct (String.eqb k v) eqn:E.
  - apply String.eqb_eq in E. subst k. cbn [negb length]. f_equal.
    clear IH Hin Hnd. induction ks as [|x ks IH]; [reflexivity|].
    apply not_elem_of_cons in Hk as [Hx Hk]. cbn [List.filter].
    replace (String.eqb x v) with false by (symmetry; apply String.eqb_neq; congruence).
    cbn [negb length]. f_equal. now apply IH.
  - apply String.eqb_neq in E. apply elem_of_cons in Hin as [->|Hin]; [congruence|].
    cbn [negb length]. f_equal. now apply IH.
Qed.

Lemma filter_other_elem (ks : list string) (v k : string) :
  k ∈ List.filter (fun k => negb (String.eqb k v)) ks <-> k ∈ ks /\ k <> v.
Proof.
  rewrite !list_elem_of_In, filter_In, negb_true_iff, String.eqb_neq. reflexivity.
Qed.

(** *** Runs *)

Lemma run_snoc ops (o : Op) c : run (ops ++ [o]) c = step (run ops c) o.
Proof. unfold run. now rewrite fold_left_app. Qed.

Lemma run_cons (o : Op) ops c : run (o :: ops) c = run ops (step c o).
Proof. reflexivity. Qed.

Lemma run_app (ops1 ops2 : list Op) c : run (ops1 ++ ops2) c = run ops2 (run ops1 c).
Proof. unfold run. now rewrite fold_left_app. Qed.

Lemma put_keys_app (ops1 ops2 : list Op) : put_keys (ops1 ++ ops2) = put_keys ops1 ++ put_keys ops2.
Proof.
  induction ops1 as [|[k d|k] ops1 IH]; cbn [put_keys app]; [reflexivity | | exact IH].
  now rewrite IH.
Qed.

Lemma last_use_from_snoc (i : nat) k ops (o : Op) (seen : option nat) :
  last_use_from i k (ops ++ [o]) seen
  = if String.eqb (op_key o) k then Some (i + length ops) else last_use_from i k ops seen.
Proof.
  revert i seen. induction ops as [|x ops IH]; intros i seen; cbn [last_use_from app length].
  - rewrite Nat.add_0_r. now destruct (String.eqb (op_key o) k).
  - rewrite IH. now replace (S i + length ops) with (i + S (length ops)) by lia.
Qed.

Lemma last_use_snoc k ops (o : Op) :
  last_use k (ops ++ [o])
  = if String.eqb (op_key o) k then Some (length ops) else last_use k ops.
Proof. unfold last_use. now rewrite last_use_from_snoc. Qed.

(** The position [last_use] gives holds an operation on that key. *)
Lemma last_use_lookup k ops (n : nat) :
  last_use k ops = Some n -> exists o, ops !! n = Some o /\ op_key o = k.
Proof.
  revert n. induction ops as [|o ops IH] using rev_ind; intros n; [discriminate|].
  rewrite last_use_snoc. destruct (String.eqb (op_key o) k) eqn:E.
  - intros [= <-]. exists o. split; [now apply list_lookup_middle | now apply String.eqb_eq].
  - intros H. destruct (IH n H) as (o' & Ho' & Hk). exists o'. split; [|exact Hk].
    now apply lookup_app_l_Some.
Qed.

Lemma refresh_elem k (f : Decision -> Decision) (now : nat) es e :
  e ∈ refresh k f now es ->
  exists e0, e0 ∈ es /\ key e = key e0
             /\ (key e0 = k -> lastAccess e = now)
             /\ (key e0 <> k -> e = e0).
Proof.
  unfold refresh. intros (e0 & -> & Hin)%list_elem_of_fmap.
  exists e0. destruct (has_key k e0) eqn:E.
  - apply has_key_true in E. repeat split; try assumption; try reflexivity. congruence.
  - apply has_key_false in E. repeat split; try assumption; try reflexivity. congruence.
Qed.

Lemma run_filling (C : nat) ops :
  NoDup (put_keys ops) -> length (put_keys ops) <= C -> filling C ops (run ops (empty C)).
Proof.
  induction ops as [|o ops IH] using rev_ind; intros Hnd Hlen.
  - repeat split. intros e He. now apply elem_of_nil in He.
  - rewrite put_keys_app in Hnd, Hlen. rewrite length_app in Hlen.
    apply NoDup_app in Hnd as (Hnd & Hfresh & _).
    destruct (IH Hnd ltac:(lia)) as (Hcap & Hclock & Hkeys & Hlast).
    rewrite run_snoc. set (c := run ops (empty C)) in *.
    destruct o as [k d|k]; cbn [step put_keys] in *.
    + assert (Hk : k ∉ put_keys ops).
      { intros Hin. apply (Hfresh k Hin). apply list_elem_of_here. }
      assert (Hmiss : lookup k (entries c) = None) by (apply lookup_None; now rewrite Hkeys).
      assert (Hroom : (capacity c <=? length (entries c)) = false).
      { apply Nat.leb_gt. rewrite Hcap, <- (length_fmap key), Hkeys. cbn in Hlen. lia. }
      unfold put. rewrite Hmiss, Hroom. unfold filling. cbn [capacity clock entries].
      rewrite length_app, put_keys_app, fmap_app, Hkeys. cbn [length put_keys fmap list_fmap key].
      repeat split; [exact Hcap | lia |].
      intros e [He | ->%list_elem_of_singleton]%elem_of_app; rewrite last_use_snoc; cbn [op_key].
      * destruct (String.eqb k (key e)) eqn:E; [|now apply Hlast].
        apply String.eqb_eq in E. exfalso. apply Hk. rewrite <- Hkeys, E.
        now apply list_elem_of_fmap_2.
      * cbn [key lastAccess]. now rewrite String.eqb_refl, Hclock.
    + unfold filling.
      rewrite get_keys, put_keys_app, length_app. cbn [put_keys length]. rewrite app_nil_r.
      unfold get. destruct (lookup k (entries c)) as [e0|] eqn:Hlook; cbn [snd capacity clock entries].
      * repeat split; [exact Hcap | lia | exact Hkeys |].
        intros e (e1 & He1 & Hkey & Hhit & Hother)%refresh_elem.
        rewrite last_use_snoc. cbn [op_key].
        destruct (String.eqb k (key e)) eqn:E.
        -- apply String.eqb_eq in E. rewrite Hhit, Hclock by congruence. reflexivity.
        -- apply String.eqb_neq in E. rewrite Hother by congruence. now apply Hlast.
      * repeat split; [exact Hcap | lia | exact Hkeys |].
        intros e He. rewrite last_use_snoc. cbn [op_key].
        destruct (String.eqb k (key e)) eqn:E; [|now apply Hlast].
        apply String.eqb_eq in E. apply lookup_None in Hlook. exfalso. apply Hlook.
        rewrite E. now apply list_elem_of_fmap_2.
Qed.

(** Reads change no key. *)
Lemma run_gets_keys ops c :
  forallb is_get ops = true -> key <$> entries (run ops c) = key <$> entries c.
Proof.
  revert c. induction ops as [|[k d|k] ops IH]; intros c H; cbn in H; [reflexivity | discriminate |].
  rewrite run_cons, (IH _ H). apply get_keys.
Qed.

(** *** Eviction *)

Lemma not_cached_lookup k c : ~ cached k c -> lookup k (entries c) = None.
Proof.
  unfold cached. destruct (lookup k (entries c)); [|reflexivity].
  intros H. exfalso. apply H. eauto.
Qed.

(** A [put] of a new key into a full cache. *)
Lemma put_full c k d :
  NoDup (key <$> entries c) -> 0 < capacity c -> length (entries c) = capacity c ->
  ~ cached k c ->
  exists v, least_recent (entries c) = Some v
    /\ v ∈ entries c
    /\ (forall e, e ∈ entries c -> lastAccess v <= lastAccess e)
    /\ entries (put k d c)
       = List.filter (fun e => negb (has_key (key v) e)) (entries c)
         ++ [{| key := k; decision := d; lastAccess := clock c |}]
    /\ length (entries (put k d c)) = capacity c
    /\ (forall k', cached k' (put k d c) <-> k' = k \/ (cached k' c /\ k' <> key v)).
Proof.
  intros Hnd Hpos Hfull Hmiss.
  pose proof (least_recent_spec (entries c)) as Hleast.
  destruct (least_recent (entries c)) as [v|] eqn:Hv.
  2: { rewrite Hleast in Hfull. cbn in Hfull. lia. }
  destruct Hleast as [Hin Hmin]. exists v.
  assert (Hput : entries (put k d c)
                 = List.filter (fun e => negb (has_key (key v) e)) (entries c)
                   ++ [{| key := k; decision := d; lastAccess := clock c |}]).
  { unfold put. rewrite (not_cached_lookup _ _ Hmiss).
    replace (capacity c <=? length (entries c)) with true by (symmetry; apply Nat.leb_le; lia).
    cbn [entries]. unfold evict. now rewrite Hv. }
  assert (Hkeys : key <$> entries (put k d c)
                  = List.filter (fun k' => negb (String.eqb k' (key v))) (key <$> entries c) ++ [k]).
  { rewrite Hput, fmap_app. f_equal. rewrite <- (evict_keys _ _ Hv). unfold evict. now rewrite Hv. }
  split; [reflexivity|]. split; [exact Hin|]. split; [exact Hmin|].
  split; [exact Hput|]. split.
  - rewrite <- (length_fmap key), Hkeys, length_app. cbn [length].
    rewrite <- Hfull, <- (length_fmap key (entries c)).
    rewrite <- (filter_other_length (key <$> entries c) (key v) Hnd); [lia|].
    now apply list_elem_of_fmap_2.
  - intros k'.
    rewrite (cached_keys k' (put k d c)), Hkeys, elem_of_app, filter_other_elem,
      list_elem_of_singleton, <- cached_keys.
    tauto.
Qed.

(** An entry disappears in one way only: as the least recently used one,
    when a new key is put into a cache that is at its capacity. *)
Lemma step_removes c (o : Op) k' :
  cached k' c -> ~ cached k' (step c o) ->
  exists k d v, o = Put k d /\ ~ cached k c /\ capacity c <= length (entries c)
                /\ least_recent (entries c) = Some v /\ key v = k'.
Proof.
  rewrite !cached_keys. intros Hin Hout.
  destruct o as [k d|k]; cbn [step] in Hout.
  2: { rewrite get_keys in Hout. contradiction. }
  unfold put in Hout. destruct (lookup k (entries c)) as [e0|] eqn:Hlook; cbn [entries] in Hout.
  { rewrite refresh_keys in Hout. contradiction. }
  destruct (capacity c <=? length (entries c)) eqn:Hcap.
  2: { rewrite fmap_app, elem_of_app in Hout. tauto. }
  destruct (least_recent (entries c)) as [v|] eqn:Hv.
  2: { unfold evict in Hout. rewrite Hv, fmap_app, elem_of_app in Hout. tauto. }
  exists k, d, v. repeat split; try reflexivity.
  - rewrite cached_keys. now apply lookup_None.
  - now apply Nat.leb_le.
  - rewrite fmap_app, elem_of_app, (evict_keys _ _ Hv), filter_other_elem in Hout.
    destruct (String.eqb_spec (key v) k'); [assumption|]. exfalso. apply Hout. left. split; congruence.
Qed.

(** Inserting [C+1] distinct keys, with reads in between. *)
Lemma run_overflow (C : nat) (pre post : list Op) k d :
  0 < C -> NoDup (put_keys pre) -> length (put_keys pre) = C -> k ∉ put_keys pre ->
  forallb is_get post = true ->
  let final := run (pre ++ Put k d :: post) (empty C) in
  exists victim, victim ∈ put_keys pre
    /\ (forall k', k' ∈ put_keys pre -> k' <> victim ->
          exists n m, last_use victim pre = Some n /\ last_use k' pre = Some m /\ n < m)
    /\ ~ cached victim final
    /\ (forall k', k' ∈ k :: put_keys pre -> k' <> victim -> cached k' final)
    /\ length (entries final) = C.
Proof.
  intros HC Hnd Hlen Hk Hpost final.
  destruct (run_filling C pre Hnd ltac:(lia)) as (Hcap & Hclock & Hkeys & Hlast).
  set (c := run pre (empty C)) in *.
  assert (Hfinal : key <$> entries final = key <$> entries (put k d c)).
  { subst final. rewrite run_app, run_cons. now apply run_gets_keys. }
  destruct (put_full c k d) as (v & Hv & Hin & Hmin & _ & Hsize & Hcached).
  { now rewrite Hkeys. }
  { lia. }
  { now rewrite <- (length_fmap key), Hkeys, Hcap. }
  { now rewrite cached_keys, Hkeys. }
  assert (Hvic : key v ∈ put_keys pre) by (rewrite <- Hkeys; now apply list_elem_of_fmap_2).
  exists (key v). repeat split.
  - exact Hvic.
  - intros k' Hk' Hne. rewrite <- Hkeys in Hk'.
    apply list_elem_of_fmap in Hk' as (e' & -> & He').
    exists (lastAccess v), (lastAccess e'). repeat split; [now apply Hlast | now apply Hlast |].
    destruct (Nat.eq_dec (lastAccess v) (lastAccess e')) as [Heq|Hneq].
    + exfalso. apply Hne.
      destruct (last_use_lookup _ _ _ (Hlast v Hin)) as (o1 & Ho1 & Hk1).
      destruct (last_use_lookup _ _ _ (Hlast e' He')) as (o2 & Ho2 & Hk2).
      rewrite Heq in Ho1. congruence.
    + specialize (Hmin e' He'). lia.
  - rewrite cached_keys, Hfinal, <- cached_keys, Hcached.
    intros [Heq|[_ Hne]]; [apply Hk; now rewrite <- Heq | congruence].
  - intros k' Hk' Hne. rewrite cached_keys, Hfinal, <- cached_keys, Hcached.
    apply elem_of_cons in Hk' as [->|Hk']; [now left | right].
    split; [|exact Hne]. now rewrite cached_keys, Hkeys.
  - rewrite <- (length_fmap key), Hfinal, length_fmap, Hsize. exact Hcap.
Qed.

(** C7. For a cache of capacity [C] of at least one: after [C+1]
    distinct keys were inserted, with any reads in between and after, the
    cache holds [C] entries and exactly one of the keys is absent, the one
    whose last access (insertion or read) lies furthest back; a [put] of a
    new key into a full cache removes exactly one entry, one of least
    [lastAccess], and then inserts; and an entry disappears in no other way:
    reads remove nothing, the clock removes nothing, a [put] removes
    nothing unless the key is new and the cache at its capacity. With
    capacity two, after [put a; put b; get a; put c] it is [b] that is
    gone, not [a], which was inserted first. *)
Theorem cache_evicts_least_recently_used :
  (forall (C : nat) (pre post : list Op) k d,
      0 < C -> NoDup (put_keys pre) -> length (put_keys pre) = C -> k ∉ put_keys pre ->
      forallb is_get post = true ->
      let final := run (pre ++ Put k d :: post) (empty C) in
      exists victim, victim ∈ put_keys pre
        /\ (forall k', k' ∈ put_keys pre -> k' <> victim ->
              exists n m, last_use victim pre = Some n /\ last_use k' pre = Some m /\ n < m)
        /\ ~ cached victim final
        /\ (forall k', k' ∈ k :: put_keys pre -> k' <> victim -> cached k' final)
        /\ length (entries final) = C)
  /\ (forall c k d,
        NoDup (key <$> entries c) -> 0 < capacity c -> length (entries c) = capacity c ->
        ~ cached k c ->
        exists v, least_recent (entries c) = Some v
          /\ v ∈ entries c
          /\ (forall e, e ∈ entries c -> lastAccess v <= lastAccess e)
          /\ entries (put k d c)
             = List.filter (fun e => negb (has_key (key v) e)) (entries c)
               ++ [{| key := k; decision := d; lastAccess := clock c |}]
          /\ length (entries (put k d c)) = capacity c
          /\ (forall k', cached k' (put k d c) <-> k' = k \/ (cached k' c /\ k' <> key v)))
  /\ (forall c (o : Op) k',
        cached k' c -> ~ cached k' (step c o) ->
        exists k d v, o = Put k d /\ ~ cached k c /\ capacity c <= length (entries c)
                      /\ least_recent (entries c) = Some v /\ key v = k')
  /\ (let c := run [Put "a" allow; Put "b" allow; Get "a"; Put "c" allow] (empty 2) in
      cached "a" c /\ ~ cached "b" c /\ cached "c" c).
Proof.
  split; [exact run_overflow|]. split; [exact put_full|]. split; [exact step_removes|].
  cbv zeta. rewrite !cached_keys. vm_compute. repeat split.
  - apply list_elem_of_here.
  - intros H. apply elem_of_cons in H as [H|H]; [discriminate|].
    apply elem_of_cons in H as [H|H]; [discriminate | now apply elem_of_nil in H].
  - apply list_elem_of_further, list_elem_of_here.
Qed.

Lemma cache_evicts_least_recently_used_witness :
  let pre := [Put "a" allow; Put "b" allow; Get "a"] in
  let final := run (pre ++ Put "c" allow :: [Get "b"]) (empty 2) in
  exists victim, victim ∈ put_keys pre
    /\ (forall k', k' ∈ put_keys pre -> k' <> victim ->
          exists n m, last_use victim pre = Some n /\ last_use k' pre = Some m /\ n < m)
    /\ ~ cached victim final
    /\ (forall k', k' ∈ "c" :: put_keys pre -> k' <> victim -> cached k' final)
    /\ length (entries final) = 2.
Proof.
  apply (proj1 cache_evicts_least_recently_used 2
               [Put "a" allow; Put "b" allow; Get "a"] [Get "b"] "c" allow).
  - lia.
  - apply (bool_decide_unpack _). vm_compute. reflexivity.
  - reflexivity.
  - apply (bool_decide_unpack _). vm_compute. reflexivity.
  - reflexivity.
Defined.

End CacheFacts.

(** ** The decision engine *)

Section EngineFacts.

Import CacheKey DecisionCache DecisionEngine.






Lemma get_miss_entries (k k' : string) (c : Cache) :
  fst (get k c) = None -> entries (snd (get k c)) = entries c.
Proof.
  unfold get. destruct (lookup k (entries c)); [discriminate | reflexivity].
Qed.






(** The shell check twice, under a policy that blocks and under one that
    raises: one acquisition each, at the first call. *)
Example decide_twice_samples :
  let blocked := decide blocking_policy shell_check fresh_engine in
  let raised := decide raising_policy shell_check fresh_engine in
  acquisitions (pool (snd (decide blocking_policy shell_check_again (snd blocked)))) = 1
  /\ action (reported (fst (decide blocking_policy shell_check_again (snd blocked)))) = BLOCK
  /\ acquisitions (pool (snd (decide raising_policy shell_check_again (snd raised)))) = 1
  /\ action (reported (fst (decide raising_policy shell_check_again (snd raised)))) = ALLOW.
Proof. vm_compute. repeat split. Qed.

(** The decisions of the two policies on the shell check. *)
Example decide_blocks_shell :
  reported (fst (decide blocking_policy shell_check fresh_engine))
  = {| action := BLOCK; messages := ["shell"; "shell command execution detected"];
       policyId := Some "3002" |}
  /\ acquisitions (pool (snd (decide blocking_policy shell_check fresh_engine))) = 1.
Proof. vm_compute. split; reflexivity. Qed.

Example decide_fails_open :
  fst (decide raising_policy shell_check fresh_engine)
  = {| reported := fail_open; final := FAILED |}
  /\ diagnostics (snd (decide raising_policy shell_check fresh_engine)) = [ScriptRuntimeError].
Proof. vm_compute. split; reflexivity. Qed.

End EngineFacts.

(* ===================================================================== *)
(** * Part III: further properties of the code                            *)
(* ===================================================================== *)

(** ** The command hook: what a check carries *)

Section HookMore.

Import ProcessBuilderHook.

(** When both collaborators of the [try] block return, the engine gets
    an object with exactly the two properties [command] and [stack], the
    stack being the one captured with the configured start index and
    depth; nothing is logged, what was logged and checked before stays,
    and the call completes as the engine call does. *)
Theorem checkCommand_params_complete (env : Env) (command : list string)
        (stackInfo : list string) (s : State) :
  command <> [] ->
  enterAndInitContext env = Returns tt ->
  getStackTraceArray env (REFLECTION_STACK_START_INDEX env) (getPluginMaxStack env)
  = Returns stackInfo ->
  exists o : Scriptable,
    checkCommand env (Some command) s
    = (doCheckWithoutRequest env COMMAND o,
       {| params := Some o; log := log s; checks := checks s ++ [(COMMAND, o)] |})
    /\ dom o = ({["command"; "stack"]} : gset string)
    /\ o !! "command" = Some (JSString (Str.join " " command))
    /\ o !! "stack" = Some (JSArray stackInfo).
Proof.
  intros Hne Henter Hstack. destruct command as [|c0 cs]; [congruence|].
  rewrite checkCommand_run, Henter, Hstack. cbv zeta.
  eexists. split; [reflexivity|]. split; [|split].
  - rewrite !dom_insert_L, dom_empty_L. set_solver.
  - rewrite lookup_insert_ne by discriminate. apply lookup_insert_eq.
  - apply lookup_insert_eq.
Qed.

Lemma checkCommand_params_complete_witness :
  exists o : Scriptable,
    checkCommand quiet_env (Some ["/bin/sh"; "-c"; "id"]) initial
    = (doCheckWithoutRequest quiet_env COMMAND o,
       {| params := Some o; log := log initial;
          checks := checks initial ++ [(COMMAND, o)] |})
    /\ dom o = ({["command"; "stack"]} : gset string)
    /\ o !! "command" = Some (JSString (Str.join " " ["/bin/sh"; "-c"; "id"]))
    /\ o !! "stack"
       = Some (JSArray ["java.lang.ProcessImpl.start"; "java.lang.ProcessBuilder.start"]).
Proof.
  apply (checkCommand_params_complete quiet_env ["/bin/sh"; "-c"; "id"]).
  - discriminate.
  - reflexivity.
  - reflexivity.
Defined.

(** Membership in a list of no or one element. *)
Ltac in_small_list :=
  repeat match goal with
         | H : _ ∈ [] |- _ => exfalso; exact (proj1 (elem_of_nil _) H)
         | H : _ ∈ [_] |- _ => apply list_elem_of_singleton in H
         end.

(** From any state and for any input, a call of [checkCommand] only adds
    to the log and to the checks, at most one entry each. A call that
    makes no check returns normally. A check it makes is of type
    [COMMAND], carries the joined command, and decides how the call
    completes. What it logs is a hook error, and then the check, if one is
    made, goes without the [stack] property. *)
Theorem checkCommand_frame (env : Env) (command : option (list string)) (s : State) :
  let r := checkCommand env command s in
  exists l c,
    log (snd r) = log s ++ l /\ checks (snd r) = checks s ++ c
    /\ (length l <= 1)%nat /\ (length c <= 1)%nat
    /\ (c = [] -> fst r = Returns tt)
    /\ (forall ty o, (ty, o) ∈ c ->
          ty = COMMAND /\ fst r = doCheckWithoutRequest env COMMAND o
          /\ exists cmd, command = Some cmd
                         /\ o !! "command" = Some (JSString (Str.join " " cmd)))
    /\ (forall e, e ∈ l ->
          (exists t, e = hook_error env t)
          /\ forall ty (o : Scriptable), (ty, o) ∈ c -> o !! "stack" = None).
Proof.
  intros r. subst r.
  destruct command as [[|c0 cs]|].
  1, 3: exists [], []; cbn; rewrite !app_nil_r;
        repeat split; try lia; intros; in_small_list.
  rewrite checkCommand_run.
  destruct (enterAndInitContext env) as [[]|t].
  - destruct (getStackTraceArray env _ _) as [stackInfo|t]; cbv zeta; cbn [fst snd log checks].
    + exists [], [(COMMAND, <["stack" := JSArray stackInfo]>
                               (<["command" := JSString (Str.join " " (c0 :: cs))]> ∅))].
      rewrite app_nil_r.
      repeat split; cbn [length]; try lia; try discriminate; intros; in_small_list;
        simplify_eq; try reflexivity;
        try (eexists; split; [reflexivity|];
             rewrite lookup_insert_ne by discriminate; apply lookup_insert_eq).
    + exists [hook_error env t],
             [(COMMAND, <["command" := JSString (Str.join " " (c0 :: cs))]> ∅)].
      repeat split; cbn [length]; try lia; try discriminate; intros; in_small_list;
        simplify_eq; try reflexivity; eauto;
        try (eexists; split; [reflexivity|]; apply lookup_insert_eq).
  - exists [hook_error env t], []. cbn [fst snd log checks]. rewrite app_nil_r.
    repeat split; cbn [length]; try lia; intros; in_small_list; simplify_eq; eauto.
Qed.

End HookMore.

(** ** The byte-array form: round trip and skipping *)

Section BytesMore.

Import ProcessBuilderHook.

Variable newString : list Byte.byte -> string.

(** The list built from the two arrays, without indices. *)
Lemma commands_of_bytes_pieces (command args : option (list Byte.byte)) :
  commands_of_bytes newString command args
  = newString <$> (command_piece command ++ zero_terminated [] (default [] args)).
Proof.
  unfold commands_of_bytes. rewrite fmap_app.
  set (commands := match command with
                   | Some ((_ :: _) as c) => [] ++ [newString (take (length c - 1) c)]
                   | _ => []
                   end).
  assert (Hc : commands = newString <$> command_piece command).
  { subst commands. destruct command as [[|c0 c]|]; try reflexivity.
    unfold command_piece. now rewrite <- take_pred_removelast. }
  rewrite <- Hc. destruct args as [[|b a]|]; cbn [default].
  - now rewrite app_nil_r.
  - exact (split_args_pieces newString (b :: a) [] 0 commands (le_n 0)).
  - now rewrite app_nil_r.
Qed.

Lemma zero_terminated_piece (piece rest cur : list Byte.byte) :
  Forall (fun b => is_zero b = false) piece ->
  zero_terminated cur (piece ++ Byte.x00 :: rest) = (cur ++ piece) :: zero_terminated [] rest.
Proof.
  revert cur. induction piece as [|b piece IH]; intros cur Hfree; cbn [app zero_terminated].
  - cbn. now rewrite app_nil_r.
  - inversion Hfree as [|? ? Hb Hrest]; subst. rewrite Hb, (IH _ Hrest).
    now rewrite <- app_assoc.
Qed.

Lemma zero_terminated_terminated (encode : string -> list Byte.byte) (l : list string) :
  Forall (fun a => Forall (fun b => is_zero b = false) (encode a)) l ->
  zero_terminated [] (terminated encode l) = encode <$> l.
Proof.
  unfold terminated. induction 1 as [|a l Ha Hl IH]; [reflexivity|].
  cbn [fmap list_fmap concat]. rewrite <- app_assoc. cbn [app].
  rewrite (zero_terminated_piece _ _ _ Ha), IH. reflexivity.
Qed.

(** What the JDK encodes is what the hook checks: for a command and
    arguments whose encodings contain no zero byte and decode back to
    them, the two arrays with a zero byte after each string give back the
    command followed by the arguments, and the byte-array form runs the
    very check of the array form. *)
Theorem commands_of_bytes_round_trip (encode : string -> list Byte.byte)
        (command : string) (args : list string) :
  Forall (fun a => newString (encode a) = a
                   /\ Forall (fun b => is_zero b = false) (encode a)) (command :: args) ->
  commands_of_bytes newString (Some (terminated encode [command]))
                    (Some (terminated encode args))
  = command :: args
  /\ forall env, checkCommand_bytes newString env (Some (terminated encode [command]))
                                    (Some (terminated encode args))
                 = checkCommand_array env (command :: args).
Proof.
  intros Hall.
  assert (Hlist : commands_of_bytes newString (Some (terminated encode [command]))
                                    (Some (terminated encode args)) = command :: args).
  { rewrite commands_of_bytes_pieces.
    change (default [] (Some (terminated encode args))) with (terminated encode args).
    inversion Hall as [|? ? [Hdec Hfree] Hargs]; subst.
    rewrite zero_terminated_terminated
      by (eapply Forall_impl; [exact Hargs | now intros ? [_ ?]]).
    assert (Hpiece : command_piece (Some (terminated encode [command])) = [encode command]).
    { unfold terminated. cbn [fmap list_fmap concat]. rewrite app_nil_r. unfold command_piece.
      destruct (encode command ++ [Byte.x00]) as [|b0 r] eqn:E.
      - now apply app_eq_nil in E as [_ E].
      - rewrite <- E. now rewrite removelast_last. }
    rewrite Hpiece. cbn [app fmap list_fmap]. rewrite Hdec. f_equal.
    rewrite <- list_fmap_compose.
    clear -Hargs. induction Hargs as [|a l [Ha _] _ IH]; [reflexivity|].
    cbn [fmap list_fmap]. cbn [compose]. now rewrite Ha, IH. }
  split; [exact Hlist|].
  intros env. unfold checkCommand_bytes, checkCommand_array. now rewrite Hlist.
Qed.

(** The byte-array form makes no check exactly when the command array is
    [null] or empty and no zero byte occurs in the arguments; then it
    returns normally and changes nothing. In every other case, once the
    script context is entered, it makes exactly one check. *)
Theorem checkCommand_bytes_skips (command args : option (list Byte.byte)) :
  (commands_of_bytes newString command args = []
   <-> (command = None \/ command = Some [])
       /\ List.filter is_zero (default [] args) = [])
  /\ (commands_of_bytes newString command args = [] ->
      forall env s, checkCommand_bytes newString env command args s = (Returns tt, s))
  /\ (commands_of_bytes newString command args <> [] ->
      forall env s, enterAndInitContext env = Returns tt ->
        exists o, checks (snd (checkCommand_bytes newString env command args s))
                  = checks s ++ [(COMMAND, o)]).
Proof.
  split; [|split].
  - rewrite commands_of_bytes_pieces. split.
    + intros H. apply fmap_nil_inv, app_eq_nil in H as [Hc Hz]. split.
      * destruct command as [[|c0 c]|]; [now right | discriminate | now left].
      * apply length_zero_iff_nil. rewrite <- zero_terminated_count with (cur := []).
        now rewrite Hz.
    + intros [Hc Hz].
      assert (Hnil : zero_terminated [] (default [] args) = []).
      { apply length_zero_iff_nil. rewrite zero_terminated_count. now rewrite Hz. }
      rewrite Hnil. now destruct Hc as [-> | ->].
  - intros H env s. unfold checkCommand_bytes. now rewrite H.
  - intros H env s Henter. unfold checkCommand_bytes.
    destruct (commands_of_bytes newString command args) as [|c0 cs]; [congruence|].
    rewrite checkCommand_run, Henter.
    destruct (getStackTraceArray env _ _); cbn [snd checks]; eauto.
Qed.

End BytesMore.

Lemma commands_of_bytes_round_trip_witness :
  ProcessBuilderHook.commands_of_bytes string_of_list_byte
    (Some (ProcessBuilderHook.terminated list_byte_of_string ["/bin/sh"]))
    (Some (ProcessBuilderHook.terminated list_byte_of_string ["-c"; "id"]))
  = ["/bin/sh"; "-c"; "id"]
  /\ forall env,
      ProcessBuilderHook.checkCommand_bytes string_of_list_byte env
        (Some (ProcessBuilderHook.terminated list_byte_of_string ["/bin/sh"]))
        (Some (ProcessBuilderHook.terminated list_byte_of_string ["-c"; "id"]))
      = ProcessBuilderHook.checkCommand_array env ["/bin/sh"; "-c"; "id"].
Proof.
  apply (commands_of_bytes_round_trip string_of_list_byte list_byte_of_string
           "/bin/sh" ["-c"; "id"]).
  repeat constructor; vm_compute; repeat constructor.
Defined.

(** ** Which class is hooked, and with which overload *)

Section ClassFacts.

Import ProcessBuilderHook.

Lemma isClassMatched_cases (p : Platform) (className : string) :
  isClassMatched p className = true ->
  (className = "java/lang/ProcessImpl"
   /\ (getJdkVersion p = true
       \/ (getJdkVersion p = false /\ isLinux p || isMacOS p = false /\ isWindows p = true)))
  \/ (className = "java/lang/UNIXProcess"
      /\ getJdkVersion p = false /\ isLinux p || isMacOS p = true).
Proof.
  unfold isClassMatched.
  destruct (getJdkVersion p); [intros <-%String.eqb_eq; left; auto|].
  destruct (isLinux p || isMacOS p); [intros <-%String.eqb_eq; right; auto|].
  destruct (isWindows p); [intros <-%String.eqb_eq; left; auto 6 | discriminate].
Qed.

(** On a given platform at most one class is hooked, and it is
    [java/lang/ProcessImpl] or [java/lang/UNIXProcess]; on a platform that
    is neither a JDK 9 to 11 nor Linux, macOS or Windows, none is. *)
Theorem isClassMatched_one_class (p : Platform) (a b : string) :
  (isClassMatched p a = true -> isClassMatched p b = true -> a = b)
  /\ (isClassMatched p a = true ->
      a = "java/lang/ProcessImpl" \/ a = "java/lang/UNIXProcess")
  /\ (getJdkVersion p = false -> isLinux p = false -> isMacOS p = false ->
      isWindows p = false -> isClassMatched p a = false)
  /\ ((exists c, isClassMatched p c = true) \/ (forall c, isClassMatched p c = false)).
Proof.
  split; [|split; [|split]].
  - intros Ha Hb. apply isClassMatched_cases in Ha, Hb.
    destruct Ha as [[-> Ha]|[-> Ha]], Hb as [[-> Hb]|[-> Hb]]; try reflexivity;
      intuition congruence.
  - intros Ha. apply isClassMatched_cases in Ha. tauto.
  - intros H1 H2 H3 H4. unfold isClassMatched. now rewrite H1, H2, H3, H4.
  - unfold isClassMatched.
    destruct (getJdkVersion p); [left; now exists "java/lang/ProcessImpl"|].
    destruct (isLinux p || isMacOS p); [left; now exists "java/lang/UNIXProcess"|].
    destruct (isWindows p); [left; now exists "java/lang/ProcessImpl" | now right].
Qed.

(** For the class that [isClassMatched] accepts, [hookMethod] inserts
    exactly one call, before the constructor, of [checkCommand]: the
    overload on a string array when the class is [ProcessImpl] on a JDK
    that is not 9 to 11, the overload on two byte arrays in every other
    case, that is for [UNIXProcess] and for [ProcessImpl] on a JDK 9 to
    11. *)
Theorem hookMethod_of_matched (p : Platform) (className : string) :
  isClassMatched p className = true ->
  exists ins,
    hookMethod p (dotted className) = [ins]
    /\ methodName ins = "<init>" /\ desc ins = None /\ invokeMethod ins = "checkCommand"
    /\ (getJdkVersion p = false -> className = "java/lang/ProcessImpl" ->
        paramTypes ins = [StringArray] /\ paramString ins = "$1")
    /\ (getJdkVersion p = true \/ className = "java/lang/UNIXProcess" ->
        paramTypes ins = [ByteArray; ByteArray] /\ paramString ins = "$1,$2").
Proof.
  intros H. apply isClassMatched_cases in H.
  destruct H as [[-> H]|[-> [Hjdk _]]].
  - change (hookMethod p (dotted "java/lang/ProcessImpl"))
      with (if getJdkVersion p
            then [ {| methodName := "<init>"; desc := None; invokeMethod := "checkCommand";
                      paramString := "$1,$2"; paramTypes := [ByteArray; ByteArray] |} ]
            else [ {| methodName := "<init>"; desc := None; invokeMethod := "checkCommand";
                      paramString := "$1"; paramTypes := [StringArray] |} ]).
    destruct (getJdkVersion p); eexists; (split; [reflexivity|]); cbn;
      intuition congruence.
  - change (hookMethod p (dotted "java/lang/UNIXProcess"))
      with [ {| methodName := "<init>"; desc := None; invokeMethod := "checkCommand";
                paramString := "$1,$2"; paramTypes := [ByteArray; ByteArray] |} ].
    eexists. split; [reflexivity|]. cbn. intuition congruence.
Qed.

Lemma hookMethod_of_matched_witness :
  exists ins,
    hookMethod jdk8_linux (dotted "java/lang/UNIXProcess") = [ins]
    /\ methodName ins = "<init>" /\ desc ins = None /\ invokeMethod ins = "checkCommand"
    /\ (getJdkVersion jdk8_linux = false -> "java/lang/UNIXProcess" = "java/lang/ProcessImpl" ->
        paramTypes ins = [StringArray] /\ paramString ins = "$1")
    /\ (getJdkVersion jdk8_linux = true \/ "java/lang/UNIXProcess" = "java/lang/UNIXProcess" ->
        paramTypes ins = [ByteArray; ByteArray] /\ paramString ins = "$1,$2").
Proof.
  apply (hookMethod_of_matched jdk8_linux "java/lang/UNIXProcess"). reflexivity.
Defined.

Example isClassMatched_samples :
  isClassMatched jdk8_linux "java/lang/UNIXProcess" = true
  /\ isClassMatched jdk8_linux "java/lang/ProcessImpl" = false
  /\ isClassMatched jdk11_linux "java/lang/ProcessImpl" = true
  /\ isClassMatched jdk11_linux "java/lang/UNIXProcess" = false.
Proof. repeat split. Qed.

End ClassFacts.

(** ** [AddDependency]: the documents it stores *)

Section AddDependencyMore.

Import Dependency.

Lemma processed_length (env : Env) (rasp : Rasp.t) (dependencies : list Dependency) :
  forall i idContent, length (processed env rasp i idContent dependencies) = length dependencies.
Proof.
  induction dependencies as [|d rest IH]; intros i idContent; cbn [processed length];
    [reflexivity | now rewrite IH].
Qed.

Lemma AddDependency_docs (env : Env) (rasp : Rasp.t) (dependencies : list Dependency) :
  fst (AddDependency env rasp dependencies) = processed env rasp 0 "" dependencies.
Proof.
  unfold AddDependency. rewrite add_loop_processed.
  destruct (AddLogsWithKafka env _ _ _); reflexivity.
Qed.

(** [AddDependency] gives one document for each dependency, in order.
    The document keeps the path, vendor, product, version and source of the
    dependency; its agent id, application id, host name and register address
    are those of the registered agent, whatever the dependency came with;
    its tag is [Vendor:Product:Version], its search string the product
    followed by the version, its creation time the clock in milliseconds.
    The documents go to the log first; the bulk insert, into the alias index
    of the application, follows only when logging gave no error, and its
    result is the result. *)
Theorem AddDependency_documents (env : Env) (rasp : Rasp.t) (dependencies : list Dependency) :
  let docs := fst (AddDependency env rasp dependencies) in
  length docs = length dependencies
  /\ (forall j d, dependencies !! j = Some d ->
        exists doc, docs !! j = Some doc
          /\ Path doc = Path d /\ Vendor doc = Vendor d /\ Product doc = Product d
          /\ Version doc = Version d /\ Source doc = Source d
          /\ RaspId doc = Rasp.Id rasp /\ AppId doc = Rasp.AppId rasp
          /\ HostName doc = Rasp.HostName rasp /\ RegisterIp doc = Rasp.RegisterIp rasp
          /\ Tag doc = Vendor d +:+ ":" +:+ Product d +:+ ":" +:+ Version d
          /\ SearchString doc = Product d +:+ Version d
          /\ CreateTime doc = Z.quot (UnixNano env j) 1000000)
  /\ snd (AddDependency env rasp dependencies)
     = match AddLogsWithKafka env "dependency-data" (Rasp.AppId rasp) docs with
       | Some err => Some err
       | None => BulkInsert env (GetIndex env AliasDependencyIndexName (Rasp.AppId rasp))
                            dependencyType docs
       end.
Proof.
  intros docs. subst docs. split; [|split].
  - rewrite AddDependency_docs. apply processed_length.
  - intros j d Hj. rewrite AddDependency_docs, (processed_lookup _ _ _ _ _ _ _ Hj).
    eexists. split; [reflexivity|]. unfold add_step. cbn. repeat split.
  - rewrite AddDependency_docs. unfold AddDependency. rewrite add_loop_processed.
    cbn [app]. destruct (AddLogsWithKafka env _ _ _); reflexivity.
Qed.

End AddDependencyMore.

(** ** [getDependencyQuery]: the clauses of the query *)

Section QueryFacts.

Import Dependency.

#[local] Set Warnings "-clear-no-such-hyp".

(** The clauses the loop adds, by membership: Go ranges over the map in
    no fixed order. *)
Lemma query_loop_clauses (content : list (string * string)) :
  forall (query : BoolQuery) (queries : list Query),
    let r := query_loop content query queries in
    filter (fst r) = filter query
    /\ (forall c, c ∈ must (fst r)
          <-> c ∈ must query
              \/ exists k v, (k, v) ∈ content
                   /\ ((k = "key_word" /\ c = either_contains "tag" "search_string" v)
                       \/ (k = "hostname" /\ c = either_contains "hostname" "register_ip" v)))
    /\ (forall c, c ∈ snd r
          <-> c ∈ queries
              \/ exists k v, (k, v) ∈ content
                   /\ k <> "key_word" /\ k <> "hostname" /\ c = TermQuery k v).
Proof.
  induction content as [|[k v] rest IH]; intros query queries r; subst r.
  - cbn. repeat split; try tauto; intros [H|(k & v & H & _)]; try assumption;
      now apply elem_of_nil in H.
  - cbn [query_loop].
    destruct (String.eqb_spec k "key_word") as [->|Hkw];
      [|destruct (String.eqb_spec k "hostname") as [->|Hhn]].
    + specialize (IH {| must := must query ++ [ShouldQuery
                          [WildcardQuery "tag" ("*" +:+ v +:+ "*");
                           WildcardQuery "search_string" ("*" +:+ v +:+ "*")]];
                        filter := filter query |} queries).
      cbv zeta in IH. destruct IH as (Hf & Hm & Hq). split; [exact Hf|].
      split; intros c; [rewrite Hm | rewrite Hq]; cbn [must];
        rewrite ?elem_of_app, ?list_elem_of_singleton; setoid_rewrite elem_of_cons;
        unfold either_contains; naive_solver.
    + specialize (IH {| must := must query ++ [ShouldQuery
                          [WildcardQuery "hostname" ("*" +:+ v +:+ "*");
                           WildcardQuery "register_ip" ("*" +:+ v +:+ "*")]];
                        filter := filter query |} queries).
      cbv zeta in IH. destruct IH as (Hf & Hm & Hq). split; [exact Hf|].
      split; intros c; [rewrite Hm | rewrite Hq]; cbn [must];
        rewrite ?elem_of_app, ?list_elem_of_singleton; setoid_rewrite elem_of_cons;
        unfold either_contains; naive_solver.
    + specialize (IH query (queries ++ [TermQuery k v])).
      cbv zeta in IH. destruct IH as (Hf & Hm & Hq). split; [exact Hf|].
      split; intros c; [rewrite Hm | rewrite Hq];
        rewrite ?elem_of_app, ?list_elem_of_singleton; setoid_rewrite elem_of_cons;
        naive_solver.
Qed.

Lemma searchContent_elem (data : option SearchData.t) (k v : string) :
  (k, v) ∈ searchContent data
  <-> (k, v) ∈ match data with Some d => search_fields d | None => [] end /\ v <> "".
Proof.
  unfold searchContent. destruct data as [d|].
  - change (List.filter _ _)
      with (List.filter (fun kv : string * string => negb (String.eqb (snd kv) ""))
                        (search_fields d)).
    rewrite !list_elem_of_In, filter_In. cbn [snd].
    rewrite negb_true_iff, String.eqb_neq. reflexivity.
  - split; [intros H; now apply elem_of_nil in H | intros [H _]; exact H].
Qed.

(** [getDependencyQuery] never fails. A field of the search form that is
    empty puts no clause into the query; every other field but [key_word]
    and [hostname] puts a term clause on its JSON name into the filter;
    [key_word] becomes a must clause that looks for the word inside [tag]
    or [search_string], [hostname] one that looks inside [hostname] or
    [register_ip]. There are no other clauses; a form without data or
    with empty fields only gives the empty query. *)
Theorem getDependencyQuery_clauses (param : SearchDependencyParam) :
  let fields := match Data param with Some d => search_fields d | None => [] end in
  let q := fst (getDependencyQuery param) in
  snd (getDependencyQuery param) = None
  /\ (forall c, c ∈ filter q
        <-> exists k v, (k, v) ∈ fields /\ v <> ""
              /\ k <> "key_word" /\ k <> "hostname" /\ c = TermQuery k v)
  /\ (forall c, c ∈ must q
        <-> exists k v, (k, v) ∈ fields /\ v <> ""
              /\ ((k = "key_word" /\ c = either_contains "tag" "search_string" v)
                  \/ (k = "hostname" /\ c = either_contains "hostname" "register_ip" v)))
  /\ ((forall k v, (k, v) ∈ fields -> v = "") -> q = {| must := []; filter := [] |}).
Proof.
  intros fields q. subst q. unfold getDependencyQuery.
  pose proof (query_loop_clauses (searchContent (Data param))
                {| must := []; filter := [] |} []) as H.
  cbv zeta in H. destruct (query_loop _ _ _) as [query queries].
  cbn [fst snd must filter] in *. destruct H as (Hf & Hm & Hq).
  split; [reflexivity|]. split; [|split].
  - intros c. rewrite Hf. cbn [app]. rewrite Hq.
    setoid_rewrite searchContent_elem. fold fields.
    split.
    + intros [H|(k & v & [H1 H2] & H3)]; [now apply elem_of_nil in H | naive_solver].
    + naive_solver.
  - intros c. rewrite Hm. setoid_rewrite searchContent_elem. fold fields.
    split.
    + intros [H|(k & v & [H1 H2] & H3)]; [now apply elem_of_nil in H | naive_solver].
    + naive_solver.
  - intros Hempty.
    assert (Hm' : must query = []).
    { destruct (must query) as [|c l] eqn:E; [reflexivity|]. exfalso.
      destruct (proj1 (Hm c) (list_elem_of_here _ _)) as [H|(k & v & H & _)];
        [now apply elem_of_nil in H|].
      apply searchContent_elem in H as [H Hne]. fold fields in H. now apply Hne, (Hempty k). }
    assert (Hq' : queries = []).
    { destruct queries as [|c l]; [reflexivity|]. exfalso.
      destruct (proj1 (Hq c) (list_elem_of_here _ _)) as [H|(k & v & H & _)];
        [now apply elem_of_nil in H|].
      apply searchContent_elem in H as [H Hne]. fold fields in H. now apply Hne, (Hempty k). }
    now rewrite Hm', Hf, Hq'.
Qed.

(** A form that asks for an application, a key word and nothing else. *)
Example getDependencyQuery_sample :
  fst (getDependencyQuery
         {| Page := 1; Perpage := 10;
            Data := Some {| SearchData.Id := ""; SearchData.AppId := "app-1";
                            SearchData.RaspId := ""; SearchData.HostnameOrIp := "";
                            SearchData.Tag := ""; SearchData.KeyWord := "log4j";
                            SearchData.Source := "" |} |})
  = {| must := [ShouldQuery [WildcardQuery "tag" "*log4j*";
                             WildcardQuery "search_string" "*log4j*"]];
       filter := [TermQuery "app_id" "app-1"] |}.
Proof. reflexivity. Qed.

End QueryFacts.

(** ** [AggrDependencyByQuery]: failures, bounds and pages *)

Section AggregationMore.

Import Dependency.

(** Whatever the page, the loop only appends entries of buckets, at most
    one for each iteration. *)
Lemma page_loop_sound (buckets : list (option AggregationBucketKeyItem)) (total Page Perpage : Z) :
  forall (n : nat) (i : Z) (result result' : list Entry),
    page_loop buckets total Page Perpage n i result = Done result' ->
    exists extra, result' = result ++ extra /\ (length extra <= n)%nat
      /\ Forall (fun e => exists item, item ∈ buckets /\ reported item = Some e) extra.
Proof.
  induction n as [|n IH]; intros i result result' H; cbn [page_loop] in H.
  - injection H as <-. exists []. rewrite app_nil_r.
    split; [reflexivity|]. split; [cbn; lia | constructor].
  - destruct (_ >=? total)%Z.
    { injection H as <-. exists []. rewrite app_nil_r.
      split; [reflexivity|]. split; [cbn; lia | constructor]. }
    destruct (_ <? 0)%Z; [discriminate|].
    destruct (buckets !! _) as [item|] eqn:Hitem; [|discriminate].
    apply IH in H as (extra & -> & Hlen & Hall).
    rewrite append_bucket_reported, <- app_assoc.
    exists (omap reported [item] ++ extra). split; [reflexivity|].
    apply list_elem_of_lookup_2 in Hitem. cbn.
    destruct (reported item) as [e|] eqn:He; cbn [app length].
    + split; [lia|]. constructor; [eauto | exact Hall].
    + split; [lia | exact Hall].
Qed.

(** Whenever [AggrDependencyByQuery] returns: with an error, the total is
    zero and the page [nil]; without one, the page is a slice of at most
    [Perpage] entries, empty when the total is zero, and every entry is the
    one of a bucket whose key is [vendor:product:version], with no colon
    inside the three. *)
Theorem AggrDependencyByQuery_sound (env : Env) (appId : string) (param : SearchDependencyParam)
        (total : Z) (page : option (list Entry)) (err : option error) :
  AggrDependencyByQuery env appId param = Done (total, page, err) ->
  (forall e, err = Some e -> total = 0%Z /\ page = None)
  /\ (err = None ->
      exists entries, page = Some entries
        /\ (0 <= total)%Z /\ (0 <= Perpage param)%Z
        /\ (length entries <= Z.to_nat (Perpage param))%nat
        /\ (total = 0%Z -> entries = [])
        /\ Forall (fun e => exists tag vendor product version count,
                     e = make_value tag vendor product version count
                     /\ tag = vendor +:+ ":" +:+ product +:+ ":" +:+ version
                     /\ Str.occurs ":" vendor = false
                     /\ Str.occurs ":" product = false
                     /\ Str.occurs ":" version = false) entries).
Proof.
  unfold AggrDependencyByQuery.
  destruct (getDependencyQuery param) as [query [qerr|]].
  { intros [= <- <- <-]. split; [auto | discriminate]. }
  destruct (aggr_order env) as [order|msg]; [|discriminate].
  destruct (Search env _) as [queryResult [serr|]].
  { intros [= <- <- <-]. split; [auto | discriminate]. }
  unfold make_result.
  destruct ((Perpage param <? 0)%Z || (maxSliceCap env <? Perpage param)%Z) eqn:Hcap;
    [discriminate|].
  apply orb_false_iff in Hcap as [Hneg _]. apply Z.ltb_ge in Hneg.
  assert (Hempty : forall t p e, Done (0%Z, Some ([] : list Entry), @None error) = Done (t, p, e) ->
            (forall e0, e = Some e0 -> t = 0%Z /\ p = None)
            /\ (e = None -> exists entries, p = Some entries
                  /\ (0 <= t)%Z /\ (0 <= Perpage param)%Z
                  /\ (length entries <= Z.to_nat (Perpage param))%nat
                  /\ (t = 0%Z -> entries = [])
                  /\ Forall (fun e => exists tag vendor product version count,
                               e = make_value tag vendor product version count
                               /\ tag = vendor +:+ ":" +:+ product +:+ ":" +:+ version
                               /\ Str.occurs ":" vendor = false
                               /\ Str.occurs ":" product = false
                               /\ Str.occurs ":" version = false) entries)).
  { intros t p e [= <- <- <-]. split; [discriminate|]. intros _. exists [].
    repeat split; try lia; try constructor. cbn. lia. }
  destruct queryResult as [[[aggregations|]]|]; try apply Hempty.
  destruct (aggregations !! aggrName) as [[[buckets|]]|]; try apply Hempty.
  destruct (page_loop _ _ _ _ _ _ _) as [result|msg] eqn:Hloop; [|discriminate].
  intros [= <- <- <-]. split; [discriminate|]. intros _.
  apply page_loop_sound in Hloop as (extra & -> & Hlen & Hall). cbn [app].
  exists extra. repeat split; try lia; try assumption.
  - intros Hzero. destruct extra as [|e extra]; [reflexivity|]. exfalso.
    inversion Hall as [|? ? (item & Hin & _) _]; subst.
    destruct buckets; [now apply elem_of_nil in Hin | discriminate].
  - eapply Forall_impl; [exact Hall|]. intros e (item & _ & He).
    apply reported_iff in He as (b & tag & v & p & ver & _ & _ & Ht & Hv & Hp & Hver & ->).
    exists tag, v, p, ver, (DocCount b). repeat split; assumption.
Qed.

Lemma AggrDependencyByQuery_sound_witness :
  (forall e, @None error = Some e ->
     5%Z = 0%Z /\ Some [make_value "org.apache:commons:3.1" "org.apache" "commons" "3.1" 2] = None)
  /\ (@None error = None ->
      exists entries,
        Some [make_value "org.apache:commons:3.1" "org.apache" "commons" "3.1" 2] = Some entries
        /\ (0 <= 5)%Z /\ (0 <= Perpage sample_param)%Z
        /\ (length entries <= Z.to_nat (Perpage sample_param))%nat
        /\ (5%Z = 0%Z -> entries = [])
        /\ Forall (fun e => exists tag vendor product version count,
                     e = make_value tag vendor product version count
                     /\ tag = vendor +:+ ":" +:+ product +:+ ":" +:+ version
                     /\ Str.occurs ":" vendor = false
                     /\ Str.occurs ":" product = false
                     /\ Str.occurs ":" version = false) entries).
Proof.
  apply (AggrDependencyByQuery_sound sample_env "app" sample_param). reflexivity.
Defined.

(** The ways in which no page is computed. With an empty version string
    of the backend the function panics before it searches. When the search
    fails it returns that error with total zero and a [nil] page, whatever
    page was asked for. When the search succeeds, a negative page size, or
    one beyond what can be allocated, makes it panic; with a page size that
    can be allocated, an answer without result, without aggregations,
    without the aggregation asked for or without buckets gives total zero
    and an empty page, without error. *)
Theorem AggrDependencyByQuery_no_page (env : Env) (appId : string)
        (param : SearchDependencyParam) :
  let index := GetIndex env AliasDependencyIndexName appId in
  let query := fst (getDependencyQuery param) in
  (es_Version env = "" ->
   AggrDependencyByQuery env appId param = Panic "slice bounds out of range")
  /\ (forall order queryResult err,
        aggr_order env = Done order ->
        Search env (aggr_request index query order) = (queryResult, Some err) ->
        AggrDependencyByQuery env appId param = Done (0%Z, None, Some err))
  /\ (forall order queryResult,
        aggr_order env = Done order ->
        Search env (aggr_request index query order) = (queryResult, None) ->
        (Perpage param < 0 \/ maxSliceCap env < Perpage param)%Z ->
        AggrDependencyByQuery env appId param = Panic "makeslice: cap out of range")
  /\ (forall order queryResult,
        aggr_order env = Done order ->
        Search env (aggr_request index query order) = (queryResult, None) ->
        (0 <= Perpage param <= maxSliceCap env)%Z ->
        (queryResult = None
         \/ queryResult = Some {| Aggregations := None |}
         \/ (exists aggregations,
               queryResult = Some {| Aggregations := Some aggregations |}
               /\ (aggregations !! aggrName = None
                   \/ aggregations !! aggrName = Some {| Buckets := None |}))) ->
        AggrDependencyByQuery env appId param = Done (0%Z, Some [], None)).
Proof.
  intros index query. subst index query. unfold AggrDependencyByQuery.
  pose proof (getDependencyQuery_no_error param) as Herr.
  destruct (getDependencyQuery param) as [query err]. cbn [fst snd] in *. subst err.
  split; [|split; [|split]].
  - intros Hv. unfold aggr_order. now rewrite Hv.
  - intros order queryResult err -> ->. reflexivity.
  - intros order queryResult -> -> Hcap. unfold make_result.
    replace ((Perpage param <? 0)%Z || (maxSliceCap env <? Perpage param)%Z) with true;
      [reflexivity|].
    symmetry. apply orb_true_iff. rewrite !Z.ltb_lt. exact Hcap.
  - intros order queryResult -> -> Hcap Hnone. unfold make_result.
    replace ((Perpage param <? 0)%Z || (maxSliceCap env <? Perpage param)%Z) with false
      by (symmetry; apply orb_false_iff; rewrite !Z.ltb_ge; lia).
    destruct Hnone as [-> | [-> | (aggregations & -> & [H | H])]]; try reflexivity;
      now rewrite H.
Qed.

(** Asking for page zero or a negative page, with a page size of at
    least one, makes the function panic as soon as the backend answers
    with buckets, even with none: the first index is negative and
    [terms.Buckets[index]] is out of range. *)
Theorem AggrDependencyByQuery_page_below_one (env : Env) (appId : string)
        (param : SearchDependencyParam) (order : TermsOrder)
        (aggregations : gmap string AggregationBucketKeyItems)
        (buckets : list (option AggregationBucketKeyItem)) :
  (Page param <= 0)%Z ->
  (1 <= Perpage param <= maxSliceCap env)%Z ->
  (- 2 ^ 63 <= (Page param - 1) * Perpage param)%Z ->
  aggr_order env = Done order ->
  Search env (aggr_request (GetIndex env AliasDependencyIndexName appId)
                           (fst (getDependencyQuery param)) order)
  = (Some {| Aggregations := Some aggregations |}, None) ->
  aggregations !! aggrName = Some {| Buckets := Some buckets |} ->
  AggrDependencyByQuery env appId param = Panic "index out of range".
Proof.
  intros HPage HPer Hmin Horder HSearch Hagg. unfold AggrDependencyByQuery.
  pose proof (getDependencyQuery_no_error param) as Herr.
  destruct (getDependencyQuery param) as [query err]. cbn [fst snd] in *. subst err.
  rewrite Horder, HSearch. unfold make_result.
  replace ((Perpage param <? 0)%Z || (maxSliceCap env <? Perpage param)%Z) with false
    by (symmetry; apply orb_false_iff; rewrite !Z.ltb_ge; lia).
  rewrite Hagg.
  destruct (Z.to_nat (Perpage param)) as [|n] eqn:Hn; [lia|]. cbn [page_loop].
  assert (Hp1 : (- 2 ^ 63 <= Page param - 1 < 2 ^ 63)%Z) by nia.
  rewrite (wrap64_small (Page param - 1)) by exact Hp1.
  assert (Hneg : ((Page param - 1) * Perpage param < 0)%Z) by nia.
  rewrite (wrap64_small ((Page param - 1) * Perpage param)) by lia.
  rewrite (wrap64_small (0 + (Page param - 1) * Perpage param)) by lia.
  replace (0 + (Page param - 1) * Perpage param >=? Z.of_nat (length buckets))%Z with false
    by (symmetry; rewrite Z.geb_leb; apply Z.leb_gt; lia).
  replace (0 + (Page param - 1) * Perpage param <? 0)%Z with true
    by (symmetry; apply Z.ltb_lt; lia).
  reflexivity.
Qed.

Lemma AggrDependencyByQuery_page_below_one_witness :
  AggrDependencyByQuery sample_env "app" {| Page := 0; Perpage := 3; Data := None |}
  = Panic "index out of range".
Proof.
  refine (AggrDependencyByQuery_page_below_one sample_env "app"
            {| Page := 0; Perpage := 3; Data := None |} OrderByKeyAsc
            {[ aggrName := {| Buckets := Some sample_buckets |} ]} sample_buckets
            _ _ _ _ _ _).
  - vm_compute. discriminate.
  - split; vm_compute; discriminate.
  - vm_compute. discriminate.
  - reflexivity.
  - reflexivity.
  - reflexivity.
Defined.

(** The page of a valid request, as a window on the buckets. *)
Lemma AggrDependencyByQuery_window (env : Env) (appId : string) (param : SearchDependencyParam)
      (order : TermsOrder) (aggregations : gmap string AggregationBucketKeyItems)
      (buckets : list (option AggregationBucketKeyItem)) :
  (1 <= Page param)%Z ->
  (0 <= Perpage param <= maxSliceCap env)%Z ->
  (Page param * Perpage param <= max_int64)%Z ->
  aggr_order env = Done order ->
  Search env (aggr_request (GetIndex env AliasDependencyIndexName appId)
                           (fst (getDependencyQuery param)) order)
  = (Some {| Aggregations := Some aggregations |}, None) ->
  aggregations !! aggrName = Some {| Buckets := Some buckets |} ->
  AggrDependencyByQuery env appId param
  = Done (Z.of_nat (length buckets),
          Some (omap reported (page_window (Page param) (Perpage param) buckets)),
          None).
Proof.
  intros HPage HPer Hmax Horder HSearch Hagg. unfold AggrDependencyByQuery.
  pose proof (getDependencyQuery_no_error param) as Herr.
  destruct (getDependencyQuery param) as [query err]. cbn [fst snd] in *. subst err.
  rewrite Horder, HSearch. unfold make_result.
  replace ((Perpage param <? 0)%Z || (maxSliceCap env <? Perpage param)%Z) with false
    by (symmetry; apply orb_false_iff; rewrite !Z.ltb_ge; lia).
  rewrite Hagg.
  rewrite (page_loop_window buckets (Page param) (Perpage param) HPage Hmax) by lia.
  unfold page_window. rewrite Z.add_0_r. reflexivity.
Qed.

(** A page past the last bucket is no error: it is empty, and comes with
    the total. *)
Theorem AggrDependencyByQuery_past_the_end (env : Env) (appId : string)
        (param : SearchDependencyParam) (order : TermsOrder)
        (aggregations : gmap string AggregationBucketKeyItems)
        (buckets : list (option AggregationBucketKeyItem)) :
  (1 <= Page param)%Z ->
  (0 <= Perpage param <= maxSliceCap env)%Z ->
  (Page param * Perpage param <= max_int64)%Z ->
  (Z.of_nat (length buckets) <= (Page param - 1) * Perpage param)%Z ->
  aggr_order env = Done order ->
  Search env (aggr_request (GetIndex env AliasDependencyIndexName appId)
                           (fst (getDependencyQuery param)) order)
  = (Some {| Aggregations := Some aggregations |}, None) ->
  aggregations !! aggrName = Some {| Buckets := Some buckets |} ->
  AggrDependencyByQuery env appId param = Done (Z.of_nat (length buckets), Some [], None).
Proof.
  intros HPage HPer Hmax Hpast Horder HSearch Hagg.
  rewrite (AggrDependencyByQuery_window env appId param order aggregations buckets)
    by assumption.
  unfold page_window. rewrite drop_ge by lia. now rewrite take_nil.
Qed.

Lemma AggrDependencyByQuery_past_the_end_witness :
  AggrDependencyByQuery sample_env "app" {| Page := 3; Perpage := 3; Data := None |}
  = Done (Z.of_nat (length sample_buckets), Some [], None).
Proof.
  refine (AggrDependencyByQuery_past_the_end sample_env "app"
            {| Page := 3; Perpage := 3; Data := None |} OrderByKeyAsc
            {[ aggrName := {| Buckets := Some sample_buckets |} ]} sample_buckets
            _ _ _ _ _ _ _).
  - vm_compute. discriminate.
  - split; vm_compute; discriminate.
  - vm_compute. discriminate.
  - vm_compute. discriminate.
  - reflexivity.
  - reflexivity.
  - reflexivity.
Defined.

(** The windows of the pages one to [k], one after the other. *)
Lemma page_windows_concat {A} (l : list A) (Perpage : Z) (k : nat) :
  (0 <= Perpage)%Z ->
  concat ((fun j => page_window (Z.of_nat j + 1) Perpage l) <$> seq 0 k)
  = take (k * Z.to_nat Perpage) l.
Proof.
  intros HPer. induction k as [|k IH]; [reflexivity|].
  rewrite seq_S, fmap_app, concat_app, IH. cbn [fmap list_fmap concat plus].
  rewrite app_nil_r. unfold page_window.
  replace (Z.to_nat ((Z.of_nat k + 1 - 1) * Perpage)) with (k * Z.to_nat Perpage)%nat by nia.
  rewrite take_take_drop. f_equal. lia.
Qed.

Lemma omap_concat {A B} (f : A -> option B) (ls : list (list A)) :
  omap f (concat ls) = concat ((omap f : list A -> list B) <$> ls).
Proof.
  induction ls as [|l ls IH]; [reflexivity|].
  cbn [concat fmap list_fmap]. now rewrite omap_app, IH.
Qed.

(** Paging loses nothing and repeats nothing: for a page size of at least
    one, the pages one to [k] of the same search, put one after the other,
    are the entries of the first [k * Perpage] buckets in order, and of all
    buckets once [k] pages reach the total; each page comes with the same
    total. *)
Theorem AggrDependencyByQuery_pages_cover (env : Env) (appId : string)
        (data : option SearchData.t) (Perpage : Z) (k : nat) (order : TermsOrder)
        (aggregations : gmap string AggregationBucketKeyItems)
        (buckets : list (option AggregationBucketKeyItem)) :
  (1 <= Perpage <= maxSliceCap env)%Z ->
  (Z.of_nat k * Perpage <= max_int64)%Z ->
  aggr_order env = Done order ->
  Search env (aggr_request (GetIndex env AliasDependencyIndexName appId)
                (fst (getDependencyQuery {| Page := 1; Perpage := Perpage; Data := data |}))
                order)
  = (Some {| Aggregations := Some aggregations |}, None) ->
  aggregations !! aggrName = Some {| Buckets := Some buckets |} ->
  exists pages : list (list Entry),
    length pages = k
    /\ (forall (j : nat) pg, pages !! j = Some pg ->
          AggrDependencyByQuery env appId
            {| Page := Z.of_nat j + 1; Perpage := Perpage; Data := data |}
          = Done (Z.of_nat (length buckets), Some pg, None))
    /\ concat pages = omap reported (take (k * Z.to_nat Perpage) buckets)
    /\ ((length buckets <= k * Z.to_nat Perpage)%nat -> concat pages = omap reported buckets).
Proof.
  intros HPer Hmax Horder HSearch Hagg.
  exists ((fun j => omap reported (page_window (Z.of_nat j + 1) Perpage buckets)) <$> seq 0 k).
  assert (Hcat : concat ((fun j => omap reported (page_window (Z.of_nat j + 1) Perpage buckets))
                           <$> seq 0 k)
                 = omap reported (take (k * Z.to_nat Perpage) buckets)).
  { rewrite <- (page_windows_concat buckets Perpage k) by lia.
    rewrite omap_concat, <- list_fmap_compose. reflexivity. }
  split; [now rewrite length_fmap, length_seq|]. split; [|split].
  - intros j pg Hj. apply list_lookup_fmap_Some in Hj as (j' & -> & Hj').
    apply lookup_seq in Hj' as [-> Hlt]. cbn [plus].
    apply (AggrDependencyByQuery_window env appId
             {| Page := Z.of_nat j + 1; Perpage := Perpage; Data := data |}
             order aggregations buckets); cbn [Page Dependency.Perpage]; try lia; try assumption.
    unfold max_int64 in *. nia.
  - exact Hcat.
  - intros Hall. rewrite Hcat. now rewrite take_ge.
Qed.

Lemma AggrDependencyByQuery_pages_cover_witness :
  exists pages : list (list Entry),
    length pages = 2%nat
    /\ (forall (j : nat) pg, pages !! j = Some pg ->
          AggrDependencyByQuery sample_env "app"
            {| Page := Z.of_nat j + 1; Perpage := 3; Data := None |}
          = Done (Z.of_nat (length sample_buckets), Some pg, None))
    /\ concat pages = omap reported (take (2 * Z.to_nat 3) sample_buckets)
    /\ ((length sample_buckets <= 2 * Z.to_nat 3)%nat
        -> concat pages = omap reported sample_buckets).
Proof.
  refine (AggrDependencyByQuery_pages_cover sample_env "app" None 3 2 OrderByKeyAsc
            {[ aggrName := {| Buckets := Some sample_buckets |} ]} sample_buckets
            _ _ _ _ _).
  - split; vm_compute; discriminate.
  - vm_compute. discriminate.
  - reflexivity.
  - reflexivity.
  - reflexivity.
Defined.

End AggregationMore.

(** ** [SearchDependency] and [RemoveDependencyByRasp] *)

Section SearchFacts.

Import Dependency.

Variable Doc : Type.

Lemma hits_loop_decoded (b : Backend Doc) (hits : list (option SearchHit)) (docs : list Doc) :
  Forall2 (decoded Doc b) hits docs -> hits_loop Doc b hits = Done (inr docs).
Proof.
  induction 1 as [|hit doc hits docs (item & source & m & -> & Hs & Hu & ->) _ IH];
    [reflexivity|].
  cbn [hits_loop]. now rewrite Hs, Hu, IH.
Qed.

Lemma hits_loop_first_error (b : Backend Doc) (good : list (option SearchHit))
      (docs : list Doc) (item : SearchHit) (source : string) (err : error)
      (rest : list (option SearchHit)) :
  Forall2 (decoded Doc b) good docs ->
  hit_Source item = Some source -> Unmarshal Doc b source = inl err ->
  hits_loop Doc b (good ++ Some item :: rest) = Done (inl err).
Proof.
  intros Hgood Hs Hu.
  induction Hgood as [|hit doc hits docs' (item' & source' & m & -> & Hs' & Hu' & ->) _ IH].
  - cbn [app hits_loop]. now rewrite Hs, Hu.
  - cbn [app hits_loop]. now rewrite Hs', Hu', IH.
Qed.

(** When the backend answers with hits, [SearchDependency] is all or
    nothing: if every hit decodes, it returns the backend's total and one
    document for each hit, in order, each passed through
    [HandleSearchResult] with the id of its hit; if a hit does not decode,
    the error of the first such hit is returned with total zero and no
    documents, whatever follows it. The search asks for [Perpage] hits
    from offset [(Page - 1) * Perpage], sorted by tag. *)
Theorem SearchDependency_hits (env : Env) (b : Backend Doc) (appId : string)
        (param : SearchDependencyParam) (total : Z) (hits : list (option SearchHit)) :
  (0 <= Perpage param <= maxSliceCap env)%Z ->
  SearchHitsDo Doc b (hits_request (GetIndex env AliasDependencyIndexName appId)
                                   (fst (getDependencyQuery param)) param)
  = (Some {| result_Hits := Some {| TotalHits := total; Hits := Some hits |} |}, None) ->
  (forall docs, Forall2 (decoded Doc b) hits docs ->
     SearchDependency Doc env b appId param = Done (total, Some docs, None)
     /\ length docs = length hits)
  /\ (forall good docs item source err rest,
        hits = good ++ Some item :: rest ->
        Forall2 (decoded Doc b) good docs ->
        hit_Source item = Some source -> Unmarshal Doc b source = inl err ->
        SearchDependency Doc env b appId param = Done (0%Z, None, Some err))
  /\ (forall index query,
        hits_size (hits_request index query param) = Perpage param
        /\ hits_sort (hits_request index query param) = ("tag", true)
        /\ ((1 <= Page param <= max_int64)%Z ->
            (Page param * Perpage param <= max_int64)%Z ->
            hits_from (hits_request index query param)
            = ((Page param - 1) * Perpage param)%Z)).
Proof.
  intros HPer HSearch.
  assert (Hrun : SearchDependency Doc env b appId param
                 = match hits_loop Doc b hits with
                   | Panic msg => Panic msg
                   | Done (inl err) => Done (0%Z, None, Some err)
                   | Done (inr result) => Done (total, Some result, None)
                   end).
  { unfold SearchDependency.
    pose proof (getDependencyQuery_no_error param) as Herr.
    destruct (getDependencyQuery param) as [query err]. cbn [fst snd] in *. subst err.
    rewrite HSearch. unfold make_result.
    replace ((Perpage param <? 0)%Z || (maxSliceCap env <? Perpage param)%Z) with false
      by (symmetry; apply orb_false_iff; rewrite !Z.ltb_ge; lia).
    reflexivity. }
  split; [|split].
  - intros docs Hdocs. rewrite Hrun, (hits_loop_decoded _ _ _ Hdocs).
    split; [reflexivity | symmetry; eapply Forall2_length; exact Hdocs].
  - intros good docs item source err rest -> Hgood Hs Hu.
    now rewrite Hrun, (hits_loop_first_error _ _ _ _ _ _ _ Hgood Hs Hu).
  - intros index query. split; [reflexivity|]. split; [reflexivity|].
    intros HPage Hmax. unfold hits_request, max_int64 in *. cbn [hits_from].
    rewrite (wrap64_small (Page param - 1)) by lia.
    apply wrap64_small. nia.
Qed.

(** Whenever [SearchDependency] returns: with an error, the total is zero
    and the result [nil]; without one, the result is a slice, and the page
    size was one that can be allocated. *)
Theorem SearchDependency_sound (env : Env) (b : Backend Doc) (appId : string)
        (param : SearchDependencyParam) (total : Z) (result : option (list Doc))
        (err : option error) :
  SearchDependency Doc env b appId param = Done (total, result, err) ->
  (forall e, err = Some e -> total = 0%Z /\ result = None)
  /\ (err = None ->
      (exists docs, result = Some docs)
      /\ (0 <= Perpage param <= maxSliceCap env)%Z).
Proof.
  unfold SearchDependency.
  destruct (getDependencyQuery param) as [query [qerr|]].
  { intros [= <- <- <-]. split; [auto | discriminate]. }
  destruct (SearchHitsDo Doc b _) as [queryResult [serr|]].
  { intros [= <- <- <-]. split; [auto | discriminate]. }
  unfold make_result.
  destruct ((Perpage param <? 0)%Z || (maxSliceCap env <? Perpage param)%Z) eqn:Hcap;
    [discriminate|].
  apply orb_false_iff in Hcap as [Hneg Hmax]. apply Z.ltb_ge in Hneg, Hmax.
  assert (Hok : forall t (r : list Doc) t' r' e',
             Done (t, Some r, @None error) = Done (t', r', e') ->
             (forall e, e' = Some e -> t' = 0%Z /\ r' = None)
             /\ (e' = None -> (exists docs, r' = Some docs)
                              /\ (0 <= Perpage param <= maxSliceCap env)%Z)).
  { intros t r t' r' e' [= <- <- <-]. split; [discriminate|]. intros _. split; [eauto | lia]. }
  destruct queryResult as [[[[totalHits [hits|]]|]]|]; try apply Hok.
  destruct (hits_loop Doc b hits) as [[e|docs]|msg]; try discriminate; try apply Hok.
  intros [= <- <- <-]. split; [auto | discriminate].
Qed.

(** What [AddDependency] stores for an agent is what
    [RemoveDependencyByRasp] asks to delete for it: the remover deletes by
    query, in the alias index of the application and with the document type
    the bulk insert uses, the documents whose [rasp_id] is the given id;
    and every document [AddDependency] builds for an agent carries the id
    and the application id of that agent. *)
Theorem RemoveDependencyByRasp_targets (env : Env) (b : Backend Doc) (rasp : Rasp.t)
        (dependencies : list Dependency) :
  let docs := fst (AddDependency env rasp dependencies) in
  let index := GetIndex env AliasDependencyIndexName (Rasp.AppId rasp) in
  RemoveDependencyByRasp Doc env b (Rasp.AppId rasp) (Rasp.Id rasp)
  = DeleteByQuery Doc b index dependencyType
      {| must := []; filter := [TermQuery "rasp_id" (Rasp.Id rasp)] |}
  /\ (AddLogsWithKafka env "dependency-data" (Rasp.AppId rasp) docs = None ->
      snd (AddDependency env rasp dependencies) = BulkInsert env index dependencyType docs)
  /\ Forall (fun doc => RaspId doc = Rasp.Id rasp /\ AppId doc = Rasp.AppId rasp) docs.
Proof.
  intros docs index. subst docs index. split; [reflexivity|]. split.
  - rewrite AddDependency_docs. unfold AddDependency. rewrite add_loop_processed.
    cbn [app]. intros ->. reflexivity.
  - rewrite AddDependency_docs. generalize 0%nat, ""%string.
    induction dependencies as [|d rest IH]; intros i idContent; cbn [processed]; constructor.
    + split; reflexivity.
    + apply IH.
Qed.

End SearchFacts.

Lemma SearchDependency_hits_witness :
  Dependency.SearchDependency string Dependency.sample_env Dependency.sample_backend "app"
    Dependency.sample_param
  = Dependency.Done (2%Z, Some ["{a}#1"; "{b}#2"], None)
  /\ length ["{a}#1"; "{b}#2"] = length Dependency.sample_hits.
Proof.
  apply (proj1 (SearchDependency_hits string Dependency.sample_env Dependency.sample_backend
                  "app" Dependency.sample_param 2 Dependency.sample_hits
                  ltac:(split; vm_compute; discriminate) eq_refl)).
  repeat constructor; eexists _, _, _; repeat split.
Defined.

Lemma SearchDependency_sound_witness :
  (forall e, @None Dependency.error = Some e ->
     2%Z = 0%Z /\ Some ["{a}#1"; "{b}#2"] = None)
  /\ (@None Dependency.error = None ->
      (exists docs, Some ["{a}#1"; "{b}#2"] = Some docs)
      /\ (0 <= Dependency.Perpage Dependency.sample_param
          <= Dependency.maxSliceCap Dependency.sample_env)%Z).
Proof.
  apply (SearchDependency_sound string Dependency.sample_env Dependency.sample_backend "app"
           Dependency.sample_param).
  reflexivity.
Defined.
